(** * Release-tag utilities: [prune_old_dev_tags.py] and [resolve_dev_version.py]

    A shallow embedding of the two scripts and of the parts of Python they
    rest on (string methods, the [re] module as far as the four patterns of
    the scripts need it, [int] and [str] on integers), followed by the
    properties of the scripts.

    Modelling conventions.
    - A Python [str] is a [string]; its characters are the code points
      0..255.  Among those, [\d] matches exactly ['0'..'9'], and the
      white-space and line-break tables below are Python's for that range.
    - A Python [int] is a [Z]; the interpreter's optional limit on the
      length of decimal conversions is not modelled.
    - [subprocess.run] is a function of an abstract repository state.
    - The command line of the pruner ([argparse]) is not modelled: [main]
      takes [dry_run] as its argument. *)

From Stdlib Require Import List String Ascii Bool Arith ZArith NArith Lia.
From Stdlib Require Import DecimalString Sorted Permutation.
From Stdlib Require DecimalPos.
Import ListNotations.

Local Open Scope list_scope.
Local Open Scope string_scope.

(** ** Characters *)

Definition LF : ascii := "010"%char.
Definition CR : ascii := "013"%char.

Definition code (c : ascii) : N := N_of_ascii c.

(** ['0' <= c <= '9']: what [\d] and [[0-9]] match. *)
Definition is_digit (c : ascii) : bool :=
  (48 <=? code c)%N && (code c <=? 57)%N.

Definition digit_val (c : ascii) : N := (code c - 48)%N.

(** [str.isspace] on one character: the white space [str.strip] removes. *)
Definition is_space (c : ascii) : bool :=
  let n := code c in
  ((9 <=? n)%N && (n <=? 13)%N) || ((28 <=? n)%N && (n <=? 32)%N)
  || (n =? 133)%N || (n =? 160)%N.

(** The line boundaries of [str.splitlines]. *)
Definition is_linebreak (c : ascii) : bool :=
  let n := code c in
  ((10 <=? n)%N && (n <=? 13)%N) || ((28 <=? n)%N && (n <=? 30)%N)
  || (n =? 133)%N.

(** The white space [int] skips around a number. *)
Definition is_int_space (c : ascii) : bool :=
  let n := code c in
  ((9 <=? n)%N && (n <=? 13)%N) || (n =? 32)%N || (n =? 133)%N || (n =? 160)%N.

(** ** Strings *)

Definition is_empty (s : string) : bool :=
  match s with EmptyString => true | String _ _ => false end.

Fixpoint all_chars (p : ascii -> bool) (s : string) : bool :=
  match s with
  | EmptyString => true
  | String c s' => p c && all_chars p s'
  end.

Fixpoint drop (n : nat) (s : string) : string :=
  match n, s with
  | O, _ => s
  | S n', String _ s' => drop n' s'
  | S _, EmptyString => EmptyString
  end.

Fixpoint rev_str (acc s : string) : string :=
  match s with
  | EmptyString => acc
  | String c s' => rev_str (String c acc) s'
  end.

Definition reverse (s : string) : string := rev_str EmptyString s.

(** [s.lstrip()] for a character class. *)
Fixpoint lstrip_by (p : ascii -> bool) (s : string) : string :=
  match s with
  | String c s' => if p c then lstrip_by p s' else s
  | EmptyString => EmptyString
  end.

Definition strip_by (p : ascii -> bool) (s : string) : string :=
  reverse (lstrip_by p (reverse (lstrip_by p s))).

(** [s.strip()] *)
Definition strip (s : string) : string := strip_by is_space s.

(** [s.startswith(p)] *)
Definition startswith (s p : string) : bool := String.prefix p s.

(** [s.split(sep)] for a one-character separator: never an empty list. *)
Fixpoint split_on (sep : ascii) (cur : string) (s : string) : list string :=
  match s with
  | EmptyString => [reverse cur]
  | String c s' =>
      if Ascii.eqb c sep then reverse cur :: split_on sep EmptyString s'
      else split_on sep (String c cur) s'
  end.

Definition split (sep : ascii) (s : string) : list string :=
  split_on sep EmptyString s.

(** [s.splitlines()]: a break ends the current line, CR LF is one break,
    and a break at the very end opens no further line. *)
Fixpoint splitlines_from (cur : string) (s : string) : list string :=
  match s with
  | EmptyString => if is_empty cur then [] else [reverse cur]
  | String c s' =>
      if Ascii.eqb c CR then
        match s' with
        | String c' s'' =>
            if Ascii.eqb c' LF then reverse cur :: splitlines_from EmptyString s''
            else reverse cur :: splitlines_from EmptyString s'
        | EmptyString => [reverse cur]
        end
      else if is_linebreak c then reverse cur :: splitlines_from EmptyString s'
      else splitlines_from (String c cur) s'
  end.

Definition splitlines (s : string) : list string :=
  splitlines_from EmptyString s.

(** [sep.join(l)] *)
Definition join (sep : string) (l : list string) : string := String.concat sep l.

(** [l[-1]] on a list *)
Definition last_item {A} (l : list A) : option A :=
  match rev l with x :: _ => Some x | [] => None end.

(** ** Exceptions *)

Inductive exn : Type :=
| ValueError
| TypeError
| IndexError.

(** A Python expression evaluates to a value or raises. *)
Inductive py (A : Type) : Type :=
| Val (a : A)
| Exn (e : exn).
Arguments Val {A} a.
Arguments Exn {A} e.

Definition py_bind {A B} (x : py A) (f : A -> py B) : py B :=
  match x with
  | Val a => f a
  | Exn e => Exn e
  end.

(** ** Integers: [int(s)] and [str(n)] *)

(** The digits of a literal after the first one; one underscore may stand
    between two digits. *)
Fixpoint int_body (acc : N) (after_us : bool) (s : string) : option N :=
  match s with
  | EmptyString => if after_us then None else Some acc
  | String c s' =>
      if is_digit c then int_body (10 * acc + digit_val c)%N false s'
      else if Ascii.eqb c "_"%char then
        if after_us then None else int_body acc true s'
      else None
  end.

Definition int_literal (s : string) : option N :=
  match s with
  | String c s' => if is_digit c then int_body (digit_val c) false s' else None
  | EmptyString => None
  end.

(** [int(s)] for a string, base ten: surrounding white space, an optional
    sign, decimal digits. *)
Definition py_int (s : string) : py Z :=
  let t := strip_by is_int_space s in
  let signed :=
    match t with
    | String c u =>
        if Ascii.eqb c "+"%char then option_map Z.of_N (int_literal u)
        else if Ascii.eqb c "-"%char then
          option_map (fun n => Z.opp (Z.of_N n)) (int_literal u)
        else option_map Z.of_N (int_literal t)
    | EmptyString => None
    end in
  match signed with
  | Some z => Val z
  | None => Exn ValueError
  end.

(** [str(n)], also what an f-string writes for an integer. *)
Definition py_str (z : Z) : string := NilZero.string_of_int (Z.to_int z).

(** ** Regular expressions

    The fragment of [re] the scripts use, with the search order of a
    backtracking matcher: [rmatch] lists every way the pattern can match at
    the current position, the preferred one first. *)

Inductive cls : Type :=
| Digit                       (* \d *)
| Range (lo hi : ascii)       (* [lo-hi] *)
| Dot.                        (* . *)

Definition cls_mem (k : cls) (c : ascii) : bool :=
  match k with
  | Digit => is_digit c
  | Range lo hi => (code lo <=? code c)%N && (code c <=? code hi)%N
  | Dot => negb (Ascii.eqb c LF)
  end.

Inductive regex : Type :=
| Bol                         (* ^ *)
| Eol                         (* $ *)
| Lit (l : string)            (* literal text *)
| Plus (k : cls)              (* k+ *)
| Star (k : cls)              (* k* *)
| Cat (r1 r2 : regex)         (* r1 r2 *)
| Opt (r : regex)             (* (?: r )? *)
| Group (i : nat) (r : regex) (* ( r ), the i-th group *).

Declare Scope regex_scope.
Delimit Scope regex_scope with re.
Infix "@@" := Cat (at level 60, right associativity) : regex_scope.

Definition captures := list (nat * string).

(** [m.group(i)]: [None] when the group took no part in the match. *)
Fixpoint group (g : captures) (i : nat) : option string :=
  match g with
  | [] => None
  | (j, s) :: g' => if Nat.eqb i j then Some s else group g' i
  end.

Record matched : Type := mk_matched {
  consumed : string;          (* the text the pattern matched *)
  remaining : string;         (* the text after it *)
  groups : captures
}.

(** Greedy repetition of a character class: longest run first. *)
Fixpoint star_splits (p : ascii -> bool) (s : string) : list (string * string) :=
  match s with
  | String c s' =>
      if p c then
        map (fun ab => (String c (fst ab), snd ab)) (star_splits p s')
        ++ [(EmptyString, s)]
      else [(EmptyString, s)]
  | EmptyString => [(EmptyString, EmptyString)]
  end.

Definition plus_splits (p : ascii -> bool) (s : string) : list (string * string) :=
  match s with
  | String c s' =>
      if p c then map (fun ab => (String c (fst ab), snd ab)) (star_splits p s')
      else []
  | EmptyString => []
  end.

(** [$] without MULTILINE: the end of the string, or just before a line
    feed that ends the string. *)
Definition at_eol (s : string) : bool :=
  match s with
  | EmptyString => true
  | String c EmptyString => Ascii.eqb c LF
  | _ => false
  end.

(** [rmatch r bol s g]: the matches of [r] at the head of [s]; [bol] says
    that [s] is the whole subject (position 0), [g] holds the groups so far. *)
Fixpoint rmatch (r : regex) (bol : bool) (s : string) (g : captures) : list matched :=
  match r with
  | Bol => if bol then [mk_matched EmptyString s g] else []
  | Eol => if at_eol s then [mk_matched EmptyString s g] else []
  | Lit l =>
      if String.prefix l s then [mk_matched l (drop (String.length l) s) g] else []
  | Plus k => map (fun ab => mk_matched (fst ab) (snd ab) g) (plus_splits (cls_mem k) s)
  | Star k => map (fun ab => mk_matched (fst ab) (snd ab) g) (star_splits (cls_mem k) s)
  | Cat r1 r2 =>
      flat_map
        (fun m1 =>
           map (fun m2 => mk_matched (consumed m1 ++ consumed m2) (remaining m2) (groups m2))
               (rmatch r2 (bol && is_empty (consumed m1)) (remaining m1) (groups m1)))
        (rmatch r1 bol s g)
  | Opt r' => rmatch r' bol s g ++ [mk_matched EmptyString s g]
  | Group i r' =>
      map (fun m => mk_matched (consumed m) (remaining m) ((i, consumed m) :: groups m))
          (rmatch r' bol s g)
  end.

(** [r.match(s)]: the first match at position 0, as its groups. *)
Definition re_match (r : regex) (s : string) : option captures :=
  option_map groups (hd_error (rmatch r true s [])).

(** ** Lists as Python uses them *)

(** [sorted(l)]: a stable insertion sort on the strict order [lt]. *)
Fixpoint insert_by {A} (lt : A -> A -> bool) (x : A) (l : list A) : list A :=
  match l with
  | [] => [x]
  | y :: l' => if lt x y then x :: l else y :: insert_by lt x l'
  end.

Definition sorted_by {A} (lt : A -> A -> bool) (l : list A) : list A :=
  fold_left (fun acc x => insert_by lt x acc) l [].

(** [l[-2:]] *)
Definition last_two {A} (l : list A) : list A := skipn (List.length l - 2) l.

(** ** [prune_old_dev_tags.py]: the pure part *)

(** VERSION_RE, written with re.VERBOSE; the named groups major, minor,
    patch and dev are the groups 1 to 4. *)
Definition g_major := 1%nat.
Definition g_minor := 2%nat.
Definition g_patch := 3%nat.
Definition g_dev := 4%nat.

Definition VERSION_RE : regex :=
  (Bol @@ Group g_major (Plus Digit) @@ Lit "." @@ Group g_minor (Plus Digit)
   @@ Lit "." @@ Group g_patch (Plus Digit)
   @@ Opt (Lit "-dev." @@ Group g_dev (Plus Digit)) @@ Eol)%re.

(** [int(m.group(i))]; [int(None)] raises TypeError. *)
Definition int_group (m : captures) (i : nat) : py Z :=
  match group m i with
  | Some s => py_int s
  | None => Exn TypeError
  end.

Definition ver_key : Type := Z * Z * Z.
Definition parsed_tag : Type := Z * Z * Z * option Z.

Definition parse_tag (tag : string) : py (option parsed_tag) :=
  match re_match VERSION_RE tag with
  | None => Val None
  | Some m =>
      py_bind (int_group m g_major) (fun major =>
      py_bind (int_group m g_minor) (fun minor =>
      py_bind (int_group m g_patch) (fun patch =>
      py_bind (match group m g_dev with
               | Some dev => py_bind (py_int dev) (fun n => Val (Some n))
               | None => Val None
               end) (fun dev_num =>
      Val (Some (major, minor, patch, dev_num))))))
  end.

(** Tuples of integers: [==] and [<]. *)
Definition key_eqb (a b : ver_key) : bool :=
  let '(a1, a2, a3) := a in
  let '(b1, b2, b3) := b in
  (a1 =? b1)%Z && (a2 =? b2)%Z && (a3 =? b3)%Z.

Definition key_ltb (a b : ver_key) : bool :=
  let '(a1, a2, a3) := a in
  let '(b1, b2, b3) := b in
  if (a1 =? b1)%Z then
    if (a2 =? b2)%Z then (a3 <? b3)%Z else (a2 <? b2)%Z
  else (a1 <? b1)%Z.

(** [k in l] *)
Definition key_in (k : ver_key) (l : list ver_key) : bool := existsb (key_eqb k) l.

(** [official_versions.add(k)]: the set is kept as a list without repeats. *)
Definition set_add (k : ver_key) (s : list ver_key) : list ver_key :=
  if key_in k s then s else s ++ [k].

(** [dev_tags_by_version.setdefault(k, []).append(tag)]: the dict keeps its
    keys in the order of their first insertion. *)
Fixpoint setdefault_append (k : ver_key) (tag : string)
    (d : list (ver_key * list string)) : list (ver_key * list string) :=
  match d with
  | [] => [(k, [tag])]
  | (k', l) :: d' =>
      if key_eqb k k' then (k', (l ++ [tag])%list) :: d'
      else (k', l) :: setdefault_append k tag d'
  end.

Record buckets : Type := mk_buckets {
  official_versions : list ver_key;
  dev_tags_by_version : list (ver_key * list string)
}.

(** Step 2 of [main]: the loop over the tags. *)
Fixpoint categorise (tags : list string) (b : buckets) : py buckets :=
  match tags with
  | [] => Val b
  | tag :: rest =>
      py_bind (parse_tag tag) (fun parsed =>
      match parsed with
      | None => categorise rest b
      | Some (major, minor, patch, dev_num) =>
          let key := (major, minor, patch) in
          match dev_num with
          | None =>
              categorise rest
                (mk_buckets (set_add key (official_versions b)) (dev_tags_by_version b))
          | Some _ =>
              categorise rest
                (mk_buckets (official_versions b)
                   (setdefault_append key tag (dev_tags_by_version b)))
          end
      end)
  end.

(** Step 3: [sorted(official_versions)] and its last two entries. *)
Definition sorted_official_of (official : list ver_key) : list ver_key :=
  sorted_by key_ltb official.

Definition latest_two_of (sorted_official : list ver_key) : list ver_key :=
  if (2 <=? List.length sorted_official)%nat then last_two sorted_official
  else sorted_official.

(** Step 4: the loop over [dev_tags_by_version.items()]. *)
Fixpoint tags_to_delete_of (latest_two : list ver_key)
    (d : list (ver_key * list string)) : list string :=
  match d with
  | [] => []
  | (key, dev_tag_list) :: d' =>
      if key_in key latest_two then tags_to_delete_of latest_two d'
      else dev_tag_list ++ tags_to_delete_of latest_two d'
  end.

(** [tags = [t for t in raw.splitlines() if t.strip()]] *)
Definition tags_of (raw : string) : list string :=
  filter (fun t => negb (is_empty (strip t))) (splitlines raw).

Definition show_key (v : ver_key) : string :=
  let '(a, b, c) := v in
  "  " ++ py_str a ++ "." ++ py_str b ++ "." ++ py_str c.

(** ** [resolve_dev_version.py]: the pure part *)

(** [any_version_re], [official_re] and [dev_re]. *)
Definition digit09 : cls := Range "0"%char "9"%char.

Definition any_version_re : regex :=
  (Bol @@ Plus digit09 @@ Lit "." @@ Plus digit09 @@ Lit "." @@ Plus digit09
   @@ Star Dot @@ Eol)%re.

Definition official_re : regex :=
  (Bol @@ Plus digit09 @@ Lit "." @@ Plus digit09 @@ Lit "." @@ Plus digit09
   @@ Eol)%re.

Definition dev_re : regex :=
  (Bol @@ Group 1 (Plus digit09 @@ Lit "." @@ Plus digit09 @@ Lit "." @@ Plus digit09)
   @@ Lit "-dev." @@ Group 2 (Plus digit09) @@ Eol)%re.

(** [if r.match(s)]: a match object is true, [None] is false. *)
Definition matches (r : regex) (s : string) : bool :=
  match re_match r s with Some _ => true | None => false end.

(** [version_tags] as the filter of the listing builds it. *)
Definition version_tags_of (out : string) : list string :=
  filter (matches any_version_re) (splitlines (strip out)).

Definition official_tags_of (version_tags : list string) : list string :=
  filter (matches official_re) version_tags.

(** The block "Find latest any tag": [version_tags[-1]], replaced by the
    latest official tag when that is a prefix of it. *)
Definition latest_tag_of (latest_official_tag last_version_tag : string) : string :=
  if startswith last_version_tag latest_official_tag then latest_official_tag
  else last_version_tag.

(** An f-string writes [None] for a group that took no part. *)
Definition group_text (m : captures) (i : nat) : string :=
  match group m i with Some s => s | None => "None" end.

(** The block "Check for '-dev.N' suffix": the next tag, and whether the
    dev number was incremented (which chooses the message). *)
Definition next_dev_tag_of (latest_tag : string) : py (bool * string) :=
  match re_match dev_re latest_tag with
  | Some dev_match =>
      let base_version := group_text dev_match 1 in
      py_bind (int_group dev_match 2) (fun dev_num =>
      let next_dev_num := (dev_num + 1)%Z in
      Val (true, (base_version ++ "-dev." ++ py_str next_dev_num)%string))
  | None =>
      match firstn 3 (split "."%char latest_tag) with
      | [major; minor; patch] =>
          py_bind (py_int patch) (fun p =>
          let next_patch := (p + 1)%Z in
          Val (false, (major ++ "." ++ minor ++ "." ++ py_str next_patch ++ "-dev.1")%string))
      | _ => Exn ValueError
      end
  end.

(** ** Effects

    What a run does to the outside: lines written to the two output
    streams, [git] subprocesses with what they returned, and text appended
    to the file GITHUB_ENV names. *)

Record completed : Type := mk_completed {
  returncode : Z;
  stdout : string;
  stderr : string
}.

Inductive event : Type :=
| EPrint (line : string)                        (* print(line) *)
| EPrintErr (line : string)                     (* print(line, file=sys.stderr) *)
| EGit (args : list string) (r : completed)     (* subprocess.run(["git"] + args) *)
| EAppend (path : string) (text : string).      (* open(path, 'a').write(text) *)

(** How a statement ends: normally, by [sys.exit(code)], or by an
    exception nothing catches. *)
Inductive outcome (A : Type) : Type :=
| Ret (a : A)
| Exit (status : Z)
| Raise (e : exn).
Arguments Ret {A} a.
Arguments Exit {A} status.
Arguments Raise {A} e.

Definition nl : string := String LF EmptyString.

Section Programs.

(** The repository and everything else [git] depends on, and [git] itself. *)
Variable World : Type.
Variable git : World -> list string -> World * completed.

(** [str(e)] for the [CalledProcessError] of a command and its status. *)
Variable str_CalledProcessError : list string -> Z -> string.

Definition M (A : Type) : Type := World -> list event * World * outcome A.

Definition ret {A} (a : A) : M A := fun w => ([], w, Ret a).

Definition bind {A B} (x : M A) (f : A -> M B) : M B :=
  fun w =>
    match x w with
    | (t1, w1, Ret a) =>
        match f a w1 with
        | (t2, w2, o) => ((t1 ++ t2)%list, w2, o)
        end
    | (t1, w1, Exit c) => (t1, w1, Exit c)
    | (t1, w1, Raise e) => (t1, w1, Raise e)
    end.

Notation "x <- c1 ;; c2" := (bind c1 (fun x => c2))
  (at level 61, c1 at next level, right associativity).
Notation "c1 ;; c2" := (bind c1 (fun _ => c2))
  (at level 61, right associativity).

Definition print (line : string) : M unit := fun w => ([EPrint line], w, Ret tt).
Definition print_err (line : string) : M unit := fun w => ([EPrintErr line], w, Ret tt).
Definition append_to (path text : string) : M unit :=
  fun w => ([EAppend path text], w, Ret tt).
Definition sys_exit {A} (status : Z) : M A := fun w => ([], w, Exit status).
Definition subprocess_run (args : list string) : M completed :=
  fun w => let (w', r) := git w args in ([EGit args r], w', Ret r).

(** A pure expression inside a statement. *)
Definition eval {A} (x : py A) : M A :=
  fun w => match x with
           | Val a => ([], w, Ret a)
           | Exn e => ([], w, Raise e)
           end.

(** [for x in l: body(x)] *)
Fixpoint for_each {A} (l : list A) (body : A -> M unit) : M unit :=
  match l with
  | [] => ret tt
  | x :: l' => body x ;; for_each l' body
  end.

(** *** [prune_old_dev_tags.py] *)

Definition run_git (args : list string) : M string :=
  result <- subprocess_run args ;;
  if negb (returncode result =? 0)%Z then
    print_err ("git " ++ join " " args ++ " failed:" ++ nl ++ stderr result) ;;
    sys_exit (returncode result)
  else ret (strip (stdout result)).

(** Step 5 of [main]. *)
Definition delete_tags (tags_to_delete : list string) : M unit :=
  for_each tags_to_delete (fun t =>
    print ("Deleting tag: " ++ t) ;;
    run_git ["tag"; "-d"; t] ;;
    run_git ["push"; "--delete"; "origin"; t] ;;
    ret tt).

Definition main (dry_run : bool) : M unit :=
  raw <- run_git ["tag"; "--list"] ;;
  let tags := tags_of raw in
  match tags with
  | [] => print "No tags found."
  | _ :: _ =>
  b <- eval (categorise tags (mk_buckets [] [])) ;;
  match official_versions b with
  | [] => print "No official release tags found (x.y.z). Nothing to do."
  | _ :: _ =>
  let sorted_official := sorted_official_of (official_versions b) in
  let latest_two := latest_two_of sorted_official in
  print "Official releases found (sorted):" ;;
  for_each sorted_official (fun v => print (show_key v)) ;;
  print (nl ++ "Keeping dev tags ONLY for the following official releases:") ;;
  for_each latest_two (fun v => print (show_key v)) ;;
  let tags_to_delete := tags_to_delete_of latest_two (dev_tags_by_version b) in
  match tags_to_delete with
  | [] => print (nl ++ "No dev tags need to be deleted.")
  | _ :: _ =>
  print (nl ++ "Dev tags to delete:") ;;
  for_each (sorted_by String.ltb tags_to_delete) (fun t => print ("  " ++ t)) ;;
  if dry_run then print (nl ++ "Dry-run mode: no tags have been deleted.")
  else
    delete_tags tags_to_delete ;;
    print (nl ++ "Done. Deleted dev tags outside the two latest official releases (local and origin).")
  end end end.

(** *** [resolve_dev_version.py] *)

Definition get_git_version_tags : M (list string) :=
  result <- subprocess_run ["tag"; "--sort=v:refname"] ;;
  if negb (returncode result =? 0)%Z then
    print_err ("Error running git tag: "
               ++ str_CalledProcessError ["git"; "tag"; "--sort=v:refname"] (returncode result)) ;;
    sys_exit 1
  else ret (version_tags_of (stdout result)).

(** The script; [GITHUB_ENV] is [os.environ.get('GITHUB_ENV')]. *)
Definition resolve (GITHUB_ENV : option string) : M unit :=
  version_tags <- get_git_version_tags ;;
  match last_item version_tags with
  | None => print "Error: No version tags found in repository!" ;; sys_exit 1
  | Some last_version_tag =>
  match last_item (official_tags_of version_tags) with
  | None => print "Error: Latest official release tag (X.Y.Z) not found!" ;; sys_exit 1
  | Some latest_official_tag =>
  let latest_tag := latest_tag_of latest_official_tag last_version_tag in
  print ("Latest release tag: " ++ latest_tag) ;;
  next <- eval (next_dev_tag_of latest_tag) ;;
  let next_dev_tag := snd next in
  print ((if fst next then "Computed next dev tag (incrementing dev number): "
          else "Computed next dev tag: ") ++ next_dev_tag) ;;
  print ("NEXT_DEV_TAG=" ++ next_dev_tag) ;;
  print ("LATEST_RELEASE_TAG=" ++ latest_official_tag) ;;
  match GITHUB_ENV with
  | Some path =>
      if is_empty path then ret tt
      else
        append_to path ("LATEST_RELEASE_TAG=" ++ latest_official_tag ++ nl) ;;
        append_to path ("NEXT_DEV_TAG=" ++ next_dev_tag ++ nl)
  | None => ret tt
  end
  end end.

End Programs.

Arguments ret {World A} a.
Arguments bind {World A B} x f.
Arguments print {World} line.
Arguments sys_exit {World A} status.
Arguments eval {World A} x.
Arguments for_each {World A} l body.

(** ** The tag grammar, in the words of the specification

    An official release tag is MAJOR.MINOR.PATCH, a dev tag is
    MAJOR.MINOR.PATCH-dev.N, each field a non-empty run of decimal digits
    read as a number. *)

Definition number (d : string) : Prop :=
  d <> EmptyString /\ all_chars is_digit d = true.

Fixpoint value_from (acc : N) (d : string) : N :=
  match d with
  | EmptyString => acc
  | String c d' => value_from (10 * acc + digit_val c)%N d'
  end.

Definition value (d : string) : Z := Z.of_N (value_from 0 d).

Definition official_text (a b c : string) : string := a ++ "." ++ b ++ "." ++ c.

Definition dev_text (a b c n : string) : string :=
  official_text a b c ++ "-dev." ++ n.

Inductive tag_grammar : string -> parsed_tag -> Prop :=
| official_tag a b c :
    number a -> number b -> number c ->
    tag_grammar (official_text a b c) (value a, value b, value c, None)
| dev_tag a b c n :
    number a -> number b -> number c -> number n ->
    tag_grammar (dev_text a b c n) (value a, value b, value c, Some (value n)).

Definition official_form (s : string) : Prop :=
  exists a b c, number a /\ number b /\ number c /\ s = official_text a b c.

Definition dev_form (s : string) : Prop :=
  exists a b c n,
    number a /\ number b /\ number c /\ number n /\ s = dev_text a b c n.

(** The shared grammar [^\d+\.\d+\.\d+(-dev\.\d+)?$]. *)
Definition shared_grammar (s : string) : Prop := official_form s \/ dev_form s.

(** A string does not begin with a digit. *)
Definition no_digit_head (t : string) : Prop :=
  match t with
  | EmptyString => True
  | String c _ => is_digit c = false
  end.

(** A string holds no line boundary of [splitlines]. *)
Definition no_break (s : string) : Prop :=
  all_chars (fun c => negb (is_linebreak c)) s = true.

(** A string holds no line feed. *)
Definition one_line (s : string) : Prop :=
  all_chars (fun c => negb (Ascii.eqb c LF)) s = true.

(** ** What a pattern matches, as a relation

    [Matches r bol s g m]: [m] is one of the ways [r] matches at the head of
    [s].  [rmatch] enumerates exactly these. *)

Inductive Matches : regex -> bool -> string -> captures -> matched -> Prop :=
| M_Bol s g : Matches Bol true s g (mk_matched EmptyString s g)
| M_Eol bol s g :
    at_eol s = true -> Matches Eol bol s g (mk_matched EmptyString s g)
| M_Lit bol l s g : Matches (Lit l) bol (l ++ s) g (mk_matched l s g)
| M_Plus bol k a s g :
    a <> EmptyString -> all_chars (cls_mem k) a = true ->
    Matches (Plus k) bol (a ++ s) g (mk_matched a s g)
| M_Star bol k a s g :
    all_chars (cls_mem k) a = true ->
    Matches (Star k) bol (a ++ s) g (mk_matched a s g)
| M_Cat bol r1 r2 s g m1 m2 :
    Matches r1 bol s g m1 ->
    Matches r2 (bol && is_empty (consumed m1)) (remaining m1) (groups m1) m2 ->
    Matches (Cat r1 r2) bol s g
      (mk_matched (consumed m1 ++ consumed m2) (remaining m2) (groups m2))
| M_Opt_taken bol r s g m : Matches r bol s g m -> Matches (Opt r) bol s g m
| M_Opt_skipped bol r s g : Matches (Opt r) bol s g (mk_matched EmptyString s g)
| M_Group bol i r s g m :
    Matches r bol s g m ->
    Matches (Group i r) bol s g
      (mk_matched (consumed m) (remaining m) ((i, consumed m) :: groups m)).

(** ** The events of a run *)

Definition git_calls (t : list event) : list (list string * completed) :=
  flat_map (fun e => match e with EGit args r => [(args, r)] | _ => [] end) t.

Definition printed (t : list event) : list string :=
  flat_map (fun e => match e with EPrint l => [l] | _ => [] end) t.

Definition appended (t : list event) : list (string * string) :=
  flat_map (fun e => match e with EAppend p x => [(p, x)] | _ => [] end) t.

(** The command that lists the tags for the resolver. *)
Definition listing_cmd : list string := ["tag"; "--sort=v:refname"].

(** The lines a successful run of the resolver appends to the file
    GITHUB_ENV names, when it names one. *)
Definition env_lines (GITHUB_ENV : option string)
    (latest_official_tag next_dev_tag : string) : list event :=
  match GITHUB_ENV with
  | Some path =>
      if is_empty path then []
      else [EAppend path ("LATEST_RELEASE_TAG=" ++ latest_official_tag ++ nl);
            EAppend path ("NEXT_DEV_TAG=" ++ next_dev_tag ++ nl)]
  | None => []
  end.

(** The lines a successful run of the resolver prints. *)
Definition resolver_output (incremented : bool)
    (latest_tag latest_official_tag next_dev_tag : string) : list event :=
  [EPrint ("Latest release tag: " ++ latest_tag);
   EPrint ((if incremented
            then "Computed next dev tag (incrementing dev number): "
            else "Computed next dev tag: ") ++ next_dev_tag);
   EPrint ("NEXT_DEV_TAG=" ++ next_dev_tag);
   EPrint ("LATEST_RELEASE_TAG=" ++ latest_official_tag)].

(** ** The pruner's decision, in the words of the specification *)

(** Numeric comparison of version keys, component by component. *)
Definition key_lt (a b : ver_key) : Prop :=
  let '(a1, a2, a3) := a in
  let '(b1, b2, b3) := b in
  (a1 < b1 \/ (a1 = b1 /\ (a2 < b2 \/ (a2 = b2 /\ a3 < b3))))%Z.

(** [k] is the key of an official tag of the list. *)
Definition official_key (tags : list string) (k : ver_key) : Prop :=
  exists t, In t tags /\ parse_tag t = Val (Some (k, None)).

(** [t] is a dev tag of the list, of lineage [k]. *)
Definition dev_tag_of (tags : list string) (t : string) (k : ver_key) : Prop :=
  In t tags /\ exists n, parse_tag t = Val (Some (k, Some n)).

(** The protected lineages: the last two entries of the ascending sequence
    of official keys, all of them when there are fewer than two. *)
Definition protected_of (ascending : list ver_key) : list ver_key :=
  match rev ascending with
  | last :: before_last :: _ => [before_last; last]
  | _ => ascending
  end.

(** [t] is listed under the key [k] of the dict. *)
Definition dev_member (d : list (ver_key * list string)) (k : ver_key)
    (t : string) : Prop :=
  exists l, In (k, l) d /\ In t l.

(** The two commands that delete one tag, and those of a list of tags. *)
Definition deletion_of (t : string) : list (list string) :=
  [["tag"; "-d"; t]; ["push"; "--delete"; "origin"; t]].

Definition deletions_of (tags : list string) : list (list string) :=
  flat_map deletion_of tags.

(** Steps 2 to 4 of [main] on the tags of the listing: where [main] stands
    when it has decided what to delete. *)
Inductive plan : Type :=
| NoTags                                (* returned at "No tags found." *)
| NoOfficial                            (* returned at "Nothing to do." *)
| Delete (sorted_official latest_two : list ver_key)
         (tags_to_delete : list string).

Definition plan_of (tags : list string) : py plan :=
  match tags with
  | [] => Val NoTags
  | _ :: _ =>
      py_bind (categorise tags (mk_buckets [] [])) (fun b =>
      match official_versions b with
      | [] => Val NoOfficial
      | _ :: _ =>
          let sorted_official := sorted_official_of (official_versions b) in
          let latest_two := latest_two_of sorted_official in
          Val (Delete sorted_official latest_two
                 (tags_to_delete_of latest_two (dev_tags_by_version b)))
      end)
  end.

(** The report step 3 and step 4 of [main] print. *)
Definition report_of (sorted_official latest_two : list ver_key) : list event :=
  (EPrint "Official releases found (sorted):"
   :: map (fun v => EPrint (show_key v)) sorted_official
   ++ EPrint (nl ++ "Keeping dev tags ONLY for the following official releases:")
   :: map (fun v => EPrint (show_key v)) latest_two)%list.

Definition deletion_report_of (tags_to_delete : list string) : list event :=
  EPrint (nl ++ "Dev tags to delete:")
  :: map (fun t => EPrint ("  " ++ t)) (sorted_by String.ltb tags_to_delete).

Section FailFast.

Variable World : Type.
Variable git : World -> list string -> World * completed.

(** Fail-fast execution of a list of commands, as the specification words
    it: run them in order, stop at the first that exits non-zero.  The
    result is the commands run with what they returned, the repository
    they leave, and the failing status if there is one. *)
Fixpoint run_until_failure (w : World) (cmds : list (list string))
    : list (list string * completed) * World * option Z :=
  match cmds with
  | [] => ([], w, None)
  | c :: rest =>
      let (w', r) := git w c in
      if (returncode r =? 0)%Z then
        let '(done, w'', failed) := run_until_failure w' rest in
        ((c, r) :: done, w'', failed)
      else ([(c, r)], w', Some (returncode r))
  end.

End FailFast.

(** All the dev tags of the dict, in the order of [items()]. *)
Definition dict_values (d : list (ver_key * list string)) : list string :=
  List.concat (map snd d).

(** The tags that are left when the marked ones are gone. *)
Definition remaining_tags (tags_to_delete tags : list string) : list string :=
  filter (fun t => negb (existsb (String.eqb t) tags_to_delete)) tags.

(** ** An in-memory repository, for examples

    Tags are kept locally and on the remote; deleting a tag that is not
    there fails with status 1, as [git] does. *)

Record repo : Type := mk_repo {
  local_tags : list string;
  remote_tags : list string
}.

Definition remove_tag (t : string) (l : list string) : list string :=
  filter (fun x => negb (String.eqb x t)) l.

Definition has_tag (t : string) (l : list string) : bool :=
  existsb (String.eqb t) l.

Definition listing (l : list string) : string :=
  String.concat nl l ++ nl.

Definition fake_git (w : repo) (args : list string) : repo * completed :=
  match args with
  | ["tag"; "--list"] => (w, mk_completed 0 (listing (local_tags w)) EmptyString)
  | ["tag"; "--sort=v:refname"] =>
      (w, mk_completed 0 (listing (local_tags w)) EmptyString)
  | ["tag"; "-d"; t] =>
      if has_tag t (local_tags w)
      then (mk_repo (remove_tag t (local_tags w)) (remote_tags w),
            mk_completed 0 ("Deleted tag " ++ t) EmptyString)
      else (w, mk_completed 1 EmptyString ("error: tag not found: " ++ t))
  | ["push"; "--delete"; "origin"; t] =>
      if has_tag t (remote_tags w)
      then (mk_repo (local_tags w) (remove_tag t (remote_tags w)),
            mk_completed 0 EmptyString EmptyString)
      else (w, mk_completed 1 EmptyString "error: remote ref does not exist")
  | _ => (w, mk_completed 129 EmptyString "usage")
  end.

(** The repository of the specification's example, one whose remote lacks
    a dev tag, and two without an official release. *)
Definition example_repo : repo :=
  mk_repo ["1.0.0"; "1.0.0-dev.1"; "1.1.0"; "1.1.0-dev.1"; "1.2.0";
           "1.2.0-dev.1"; "1.2.0-dev.2"]
          ["1.0.0-dev.1"].

Definition diverged_repo : repo :=
  mk_repo ["1.0.0"; "1.0.0-dev.1"; "1.1.0"; "1.2.0"; "0.9.0-dev.3"]
          ["1.0.0-dev.1"].

Definition prerelease_repo : repo := mk_repo ["1.0.0-dev.1"; "notes"] [].

Definition dev_ahead_repo : repo :=
  mk_repo ["1.2.3"; "1.2.4-dev.1"; "1.2.4-dev.2"] [].

(** A release candidate after the latest release, and a dev tag whose
    text begins with the latest release without being of its lineage. *)
Definition release_candidate_repo : repo := mk_repo ["1.2.2"; "1.2.3-rc.1"] [].

Definition long_patch_repo : repo := mk_repo ["1.2.3"; "1.2.30-dev.5"] [].

(** [git] outside a repository: every command fails with status 128. *)
Definition no_repository_git (w : unit) (args : list string) : unit * completed :=
  (w, mk_completed 128 EmptyString
        ("fatal: not a git repository (or any of the parent directories): .git" ++ nl)).

Definition fake_str_CalledProcessError (cmd : list string) (status : Z) : string :=
  "Command " ++ join " " cmd ++ " returned non-zero exit status " ++ py_str status ++ ".".

(** * Properties *)

(** ** Strings *)

Lemma append_nil_r (s : string) : s ++ EmptyString = s.
Proof. induction s as [|c s IH]; simpl; [reflexivity | now rewrite IH]. Qed.

Lemma append_assoc (a b c : string) : (a ++ b) ++ c = a ++ (b ++ c).
Proof. induction a as [|x a IH]; simpl; [reflexivity | now rewrite IH]. Qed.

Lemma append_inv_head (a s t : string) : a ++ s = a ++ t -> s = t.
Proof.
  induction a as [|x a IH]; simpl; intros H; [exact H|].
  injection H as H. now apply IH.
Qed.

Lemma all_chars_app (p : ascii -> bool) (a b : string) :
  all_chars p (a ++ b) = all_chars p a && all_chars p b.
Proof.
  induction a as [|x a IH]; simpl; [reflexivity|].
  now rewrite IH, andb_assoc.
Qed.

Lemma prefix_append (l s : string) : String.prefix l (l ++ s) = true.
Proof.
  induction l as [|x l IH]; simpl; [now destruct s|].
  destruct (ascii_dec x x) as [_|N]; [exact IH | now elim N].
Qed.

Lemma prefix_split (l s : string) :
  String.prefix l s = true -> s = l ++ drop (String.length l) s.
Proof.
  revert s; induction l as [|x l IH]; intros s H; simpl; [reflexivity|].
  destruct s as [|y s]; simpl in H; [discriminate|].
  destruct (ascii_dec x y) as [->|_]; [|discriminate].
  simpl. f_equal. now apply IH.
Qed.

Lemma drop_append (l s : string) : drop (String.length l) (l ++ s) = s.
Proof. induction l as [|x l IH]; simpl; [reflexivity | exact IH]. Qed.

(** ** The matcher enumerates the matching relation *)

Lemma star_splits_In (p : ascii -> bool) (s a t : string) :
  In (a, t) (star_splits p s) <-> s = a ++ t /\ all_chars p a = true.
Proof.
  revert a t; induction s as [|c s IH]; intros a t; simpl.
  - split.
    + intros [H|[]]. injection H as <- <-. now split.
    + intros [H _]. left. destruct a; [|discriminate]. simpl in H. now subst.
  - destruct (p c) eqn:Hc.
    + rewrite in_app_iff, in_map_iff. split.
      * intros [[[a' t'] [E H]]|[H|[]]].
        -- simpl in E. injection E as <- <-. apply IH in H as [-> H].
           simpl. now rewrite Hc.
        -- injection H as <- <-. now split.
      * intros [E H]. destruct a as [|x a]; simpl in *.
        -- right. left. now subst.
        -- injection E as <- ->. rewrite Hc in H. simpl in H. left.
           exists (a, t). split; [reflexivity|]. now apply IH.
    + split.
      * intros [H|[]]. injection H as <- <-. now split.
      * intros [E H]. left. destruct a as [|x a]; simpl in *; [now subst|].
        injection E as <- ->. now rewrite Hc in H.
Qed.

Lemma plus_splits_In (p : ascii -> bool) (s a t : string) :
  In (a, t) (plus_splits p s)
  <-> s = a ++ t /\ a <> EmptyString /\ all_chars p a = true.
Proof.
  destruct s as [|c s]; simpl.
  - split; [intros [] | intros (E & N & _)].
    destruct a; [now elim N | discriminate].
  - destruct (p c) eqn:Hc.
    + rewrite in_map_iff. split.
      * intros [[a' t'] [E H]]. simpl in E. injection E as <- <-.
        apply star_splits_In in H as [-> H]. simpl. rewrite Hc.
        repeat split; [discriminate | exact H].
      * intros (E & N & H). destruct a as [|x a]; [now elim N|].
        simpl in *. injection E as <- ->. rewrite Hc in H. simpl in H.
        exists (a, t). split; [reflexivity|]. now apply star_splits_In.
    + split; [intros [] | intros (E & N & H)].
      destruct a as [|x a]; [now elim N|]. simpl in *.
      injection E as <- ->. now rewrite Hc in H.
Qed.

Lemma rmatch_sound (r : regex) :
  forall bol s g m, In m (rmatch r bol s g) -> Matches r bol s g m.
Proof.
  induction r as [| |l|k|k|r1 IH1 r2 IH2|r IH|i r IH]; intros bol s g m; simpl.
  - destruct bol; [intros [<-|[]]; constructor | intros []].
  - destruct (at_eol s) eqn:E; [intros [<-|[]]; now constructor | intros []].
  - destruct (String.prefix l s) eqn:E; [|intros []].
    intros [<-|[]]. rewrite (prefix_split _ _ E) at 1. constructor.
  - rewrite in_map_iff. intros [[a t] [<- H]].
    apply plus_splits_In in H as (-> & N & H). now constructor.
  - rewrite in_map_iff. intros [[a t] [<- H]].
    apply star_splits_In in H as (-> & H). now constructor.
  - rewrite in_flat_map. intros [m1 [H1 H2]].
    apply in_map_iff in H2 as [m2 [<- H2]].
    econstructor; [apply IH1, H1 | apply IH2, H2].
  - rewrite in_app_iff. intros [H|[<-|[]]]; [|apply M_Opt_skipped].
    apply M_Opt_taken. now apply IH.
  - rewrite in_map_iff. intros [m' [<- H]]. constructor. now apply IH.
Qed.

Lemma rmatch_complete (r : regex) bol s g m :
  Matches r bol s g m -> In m (rmatch r bol s g).
Proof.
  induction 1 as [s g|bol s g E|bol l s g|bol k a s g N H|bol k a s g H
                 |bol r1 r2 s g m1 m2 _ IH1 _ IH2|bol r s g m _ IH|bol r s g
                 |bol i r s g m _ IH]; simpl.
  - now left.
  - rewrite E. now left.
  - rewrite prefix_append, drop_append. now left.
  - apply in_map_iff. exists (a, s). split; [reflexivity|].
    now apply plus_splits_In.
  - apply in_map_iff. exists (a, s). split; [reflexivity|].
    now apply star_splits_In.
  - apply in_flat_map. exists m1. split; [exact IH1|].
    apply in_map_iff. now exists m2.
  - apply in_app_iff. now left.
  - apply in_app_iff. right. now left.
  - apply in_map_iff. now exists m.
Qed.

(** [r.match(s)] is decided by the relation: it fails when nothing matches,
    and yields the groups all matches agree on. *)
Lemma re_match_none (r : regex) (s : string) :
  (forall m, ~ Matches r true s [] m) -> re_match r s = None.
Proof.
  intros H. unfold re_match.
  destruct (rmatch r true s []) as [|m l] eqn:E; [reflexivity|].
  elim (H m). apply rmatch_sound. rewrite E. now left.
Qed.

Lemma re_match_some (r : regex) (s : string) (g : captures) :
  (exists m, Matches r true s [] m) ->
  (forall m, Matches r true s [] m -> groups m = g) ->
  re_match r s = Some g.
Proof.
  intros [m0 H0] H. unfold re_match. apply rmatch_complete in H0.
  destruct (rmatch r true s []) as [|m l] eqn:E; [destruct H0|].
  simpl. f_equal. apply H, rmatch_sound. rewrite E. now left.
Qed.

Lemma re_match_inv (r : regex) (s : string) (g : captures) :
  re_match r s = Some g -> exists m, Matches r true s [] m /\ groups m = g.
Proof.
  unfold re_match. destruct (rmatch r true s []) as [|m l] eqn:E; [discriminate|].
  simpl. intros [= <-]. exists m. split; [|reflexivity].
  apply rmatch_sound. rewrite E. now left.
Qed.

Lemma matches_iff (r : regex) (s : string) :
  matches r s = true <-> exists m, Matches r true s [] m.
Proof.
  unfold matches, re_match.
  destruct (rmatch r true s []) as [|m l] eqn:E; simpl.
  - split; [discriminate|]. intros [m H]. apply rmatch_complete in H.
    rewrite E in H. destruct H.
  - split; [|reflexivity]. intros _. exists m. apply rmatch_sound.
    rewrite E. now left.
Qed.

(** ** Reading a match off a pattern *)

Lemma Matches_Bol_inv bol s g m :
  Matches Bol bol s g m ->
  bol = true /\ consumed m = EmptyString /\ remaining m = s /\ groups m = g.
Proof. intros H. inversion H. now repeat split. Qed.

Lemma Matches_Eol_inv bol s g m :
  Matches Eol bol s g m ->
  at_eol s = true /\ consumed m = EmptyString /\ remaining m = s /\ groups m = g.
Proof. intros H. inversion H. now repeat split. Qed.

Lemma Matches_Lit_inv l bol s g m :
  Matches (Lit l) bol s g m ->
  s = l ++ remaining m /\ consumed m = l /\ groups m = g.
Proof. intros H. inversion H. now repeat split. Qed.

Lemma Matches_Plus_inv k bol s g m :
  Matches (Plus k) bol s g m ->
  s = consumed m ++ remaining m /\ consumed m <> EmptyString /\
  all_chars (cls_mem k) (consumed m) = true /\ groups m = g.
Proof. intros H. inversion H. now repeat split. Qed.

Lemma Matches_Star_inv k bol s g m :
  Matches (Star k) bol s g m ->
  s = consumed m ++ remaining m /\
  all_chars (cls_mem k) (consumed m) = true /\ groups m = g.
Proof. intros H. inversion H. now repeat split. Qed.

Lemma Matches_Cat_inv r1 r2 bol s g m :
  Matches (Cat r1 r2) bol s g m ->
  exists m1 m2,
    Matches r1 bol s g m1 /\
    Matches r2 (bol && is_empty (consumed m1)) (remaining m1) (groups m1) m2 /\
    consumed m = consumed m1 ++ consumed m2 /\
    remaining m = remaining m2 /\ groups m = groups m2.
Proof. intros H. inversion H. subst. exists m1, m2. now repeat split. Qed.

Lemma Matches_Opt_inv r bol s g m :
  Matches (Opt r) bol s g m ->
  Matches r bol s g m \/
  (consumed m = EmptyString /\ remaining m = s /\ groups m = g).
Proof. intros H. inversion H; subst; [now left | right; now repeat split]. Qed.

Lemma Matches_Group_inv i r bol s g m :
  Matches (Group i r) bol s g m ->
  exists m',
    Matches r bol s g m' /\ consumed m = consumed m' /\
    remaining m = remaining m' /\ groups m = (i, consumed m') :: groups m'.
Proof. intros H. inversion H. subst. exists m0. now repeat split. Qed.

Ltac match_step :=
  match goal with
  | H : Matches Bol _ _ _ _ |- _ =>
      apply Matches_Bol_inv in H; destruct H as (? & ? & ? & ?)
  | H : Matches Eol _ _ _ _ |- _ =>
      apply Matches_Eol_inv in H; destruct H as (? & ? & ? & ?)
  | H : Matches (Lit _) _ _ _ _ |- _ =>
      apply Matches_Lit_inv in H; destruct H as (? & ? & ?)
  | H : Matches (Plus _) _ _ _ _ |- _ =>
      apply Matches_Plus_inv in H; destruct H as (? & ? & ? & ?)
  | H : Matches (Star _) _ _ _ _ |- _ =>
      apply Matches_Star_inv in H; destruct H as (? & ? & ?)
  | H : Matches (Cat _ _) _ _ _ _ |- _ =>
      apply Matches_Cat_inv in H; destruct H as (? & ? & ? & ? & ? & ? & ?)
  | H : Matches (Opt _) _ _ _ _ |- _ =>
      apply Matches_Opt_inv in H; destruct H as [H | (? & ? & ?)]
  | H : Matches (Group _ _) _ _ _ _ |- _ =>
      apply Matches_Group_inv in H; destruct H as (? & ? & ? & ? & ?)
  end.

Ltac read_match :=
  repeat match_step;
  repeat match goal with m : matched |- _ => destruct m end;
  simpl in *; subst.

(** ** Numbers in tags *)

Lemma official_text_app (a b c e : string) :
  official_text a b c ++ e = a ++ String "." (b ++ String "." (c ++ e)).
Proof.
  unfold official_text. rewrite !append_assoc. simpl.
  now rewrite ?append_assoc.
Qed.

Lemma dev_text_app (a b c n e : string) :
  dev_text a b c n ++ e
  = a ++ String "." (b ++ String "." (c ++ "-dev." ++ n ++ e)).
Proof.
  unfold dev_text. rewrite append_assoc, official_text_app. simpl.
  now rewrite ?append_assoc.
Qed.

(** A run of digits followed by something that is no digit can be cut in
    one way only. *)
Lemma digits_cut_unique (a a' t t' : string) :
  all_chars is_digit a = true -> all_chars is_digit a' = true ->
  no_digit_head t -> no_digit_head t' ->
  a ++ t = a' ++ t' -> a = a' /\ t = t'.
Proof.
  revert a'; induction a as [|x a IH]; intros a' Ha Ha' Ht Ht' E.
  - destruct a' as [|y a']; [now split|]. simpl in *.
    subst t. simpl in Ht. apply andb_true_iff in Ha' as [Hy _].
    congruence.
  - destruct a' as [|y a']; simpl in *.
    + subst t'. simpl in Ht'. apply andb_true_iff in Ha as [Hx _].
      congruence.
    + injection E as -> E. apply andb_true_iff in Ha as [_ Ha].
      apply andb_true_iff in Ha' as [_ Ha'].
      destruct (IH a' Ha Ha' Ht Ht' E) as [-> ->]. now split.
Qed.

Lemma at_eol_no_digit_head (e : string) : at_eol e = true -> no_digit_head e.
Proof.
  destruct e as [|c [|d e]]; simpl; try discriminate; [trivial|].
  intros H. apply Ascii.eqb_eq in H. now subst c.
Qed.

(** ** VERSION_RE *)

Lemma VERSION_RE_inv (s : string) (m : matched) :
  Matches VERSION_RE true s [] m ->
  exists a b c e,
    ((s = official_text a b c ++ e /\
      groups m = [(g_patch, c); (g_minor, b); (g_major, a)])
     \/ exists n, s = dev_text a b c n ++ e /\
        groups m = [(g_dev, n); (g_patch, c); (g_minor, b); (g_major, a)] /\
        number n)
    /\ number a /\ number b /\ number c /\ at_eol e = true.
Proof.
  unfold VERSION_RE. intros H. read_match.
  - do 4 eexists. split.
    + right. eexists. split; [rewrite dev_text_app; reflexivity|].
      split; [reflexivity | now split].
    + repeat split; assumption.
  - do 4 eexists. split.
    + left. split; [rewrite official_text_app; reflexivity | reflexivity].
    + repeat split; assumption.
Qed.

Lemma Matches_digits (k : cls) (i : nat) bol (a t : string) (g : captures) :
  a <> EmptyString -> all_chars (cls_mem k) a = true ->
  Matches (Group i (Plus k)) bol (a ++ t) g (mk_matched a t ((i, a) :: g)).
Proof.
  intros N H. apply (M_Group bol i (Plus k) (a ++ t) g (mk_matched a t g)).
  now apply M_Plus.
Qed.

Lemma Matches_Cat_intro r1 r2 bol s g m1 m2 m :
  Matches r1 bol s g m1 ->
  Matches r2 (bol && is_empty (consumed m1)) (remaining m1) (groups m1) m2 ->
  m = mk_matched (consumed m1 ++ consumed m2) (remaining m2) (groups m2) ->
  Matches (Cat r1 r2) bol s g m.
Proof. intros H1 H2 ->. now apply M_Cat. Qed.

Lemma VERSION_RE_official (a b c e : string) :
  number a -> number b -> number c -> at_eol e = true ->
  exists m, Matches VERSION_RE true (official_text a b c ++ e) [] m.
Proof.
  intros [Na Ha] [Nb Hb] [Nc Hc] He. rewrite official_text_app.
  eexists. unfold VERSION_RE.
  eapply Matches_Cat_intro; [apply M_Bol | simpl | reflexivity].
  eapply Matches_Cat_intro;
    [apply (Matches_digits Digit); eassumption | simpl | reflexivity].
  eapply Matches_Cat_intro; [apply (M_Lit _ ".") | simpl | reflexivity].
  eapply Matches_Cat_intro;
    [apply (Matches_digits Digit); eassumption | simpl | reflexivity].
  eapply Matches_Cat_intro; [apply (M_Lit _ ".") | simpl | reflexivity].
  eapply Matches_Cat_intro;
    [apply (Matches_digits Digit); eassumption | simpl | reflexivity].
  eapply Matches_Cat_intro; [apply M_Opt_skipped | simpl | reflexivity].
  now apply M_Eol.
Qed.

Lemma VERSION_RE_dev (a b c n e : string) :
  number a -> number b -> number c -> number n -> at_eol e = true ->
  exists m, Matches VERSION_RE true (dev_text a b c n ++ e) [] m.
Proof.
  intros [Na Ha] [Nb Hb] [Nc Hc] [Nn Hn] He. rewrite dev_text_app.
  eexists. unfold VERSION_RE.
  eapply Matches_Cat_intro; [apply M_Bol | simpl | reflexivity].
  eapply Matches_Cat_intro;
    [apply (Matches_digits Digit); eassumption | simpl | reflexivity].
  eapply Matches_Cat_intro; [apply (M_Lit _ ".") | simpl | reflexivity].
  eapply Matches_Cat_intro;
    [apply (Matches_digits Digit); eassumption | simpl | reflexivity].
  eapply Matches_Cat_intro; [apply (M_Lit _ ".") | simpl | reflexivity].
  eapply Matches_Cat_intro;
    [apply (Matches_digits Digit); eassumption | simpl | reflexivity].
  eapply Matches_Cat_intro; [apply M_Opt_taken | simpl | reflexivity].
  - eapply Matches_Cat_intro; [apply (M_Lit _ "-dev.") | simpl | reflexivity].
    apply (Matches_digits Digit); eassumption.
  - now apply M_Eol.
Qed.

Lemma tag_cut_unique (a b c t a' b' c' t' : string) :
  number a -> number b -> number c ->
  number a' -> number b' -> number c' ->
  no_digit_head t -> no_digit_head t' ->
  a ++ String "." (b ++ String "." (c ++ t))
  = a' ++ String "." (b' ++ String "." (c' ++ t')) ->
  a = a' /\ b = b' /\ c = c' /\ t = t'.
Proof.
  intros [_ Ha] [_ Hb] [_ Hc] [_ Ha'] [_ Hb'] [_ Hc'] Ht Ht' E.
  apply digits_cut_unique in E as [-> E]; try assumption; try reflexivity.
  injection E as E.
  apply digits_cut_unique in E as [-> E]; try assumption; try reflexivity.
  injection E as E.
  apply digits_cut_unique in E as [-> E]; try assumption.
  now repeat split.
Qed.

Lemma at_eol_cases (e : string) :
  at_eol e = true -> e = EmptyString \/ e = String LF EmptyString.
Proof.
  destruct e as [|c [|d e]]; simpl; try discriminate; [now left|].
  intros H. apply Ascii.eqb_eq in H. subst. now right.
Qed.

(** ** [int] on a run of digits *)

Lemma rev_str_app (acc s : string) : rev_str acc s = reverse s ++ acc.
Proof.
  unfold reverse. revert acc; induction s as [|c s IH]; intros acc; simpl.
  - reflexivity.
  - rewrite (IH (String c acc)), (IH (String c EmptyString)).
    now rewrite append_assoc.
Qed.

Lemma reverse_cons (c : ascii) (s : string) :
  reverse (String c s) = reverse s ++ String c EmptyString.
Proof. unfold reverse at 1. simpl. apply rev_str_app. Qed.

Lemma reverse_app (a b : string) : reverse (a ++ b) = reverse b ++ reverse a.
Proof.
  induction a as [|c a IH]; simpl.
  - now rewrite append_nil_r.
  - now rewrite !reverse_cons, IH, append_assoc.
Qed.

Lemma reverse_involutive (s : string) : reverse (reverse s) = s.
Proof.
  induction s as [|c s IH]; [reflexivity|].
  now rewrite reverse_cons, reverse_app, IH.
Qed.

Lemma all_chars_reverse (p : ascii -> bool) (s : string) :
  all_chars p (reverse s) = all_chars p s.
Proof.
  induction s as [|c s IH]; [reflexivity|].
  rewrite reverse_cons, all_chars_app, IH. simpl.
  now rewrite andb_true_r, andb_comm.
Qed.

(** Stripping removes nothing from a string none of whose characters is in
    the class. *)
Lemma lstrip_by_none (p : ascii -> bool) (s : string) :
  all_chars (fun c => negb (p c)) s = true -> lstrip_by p s = s.
Proof.
  destruct s as [|c s]; simpl; [reflexivity|].
  intros H. apply andb_true_iff in H as [H _].
  now destruct (p c).
Qed.

Lemma strip_by_none (p : ascii -> bool) (s : string) :
  all_chars (fun c => negb (p c)) s = true -> strip_by p s = s.
Proof.
  intros H. unfold strip_by. rewrite (lstrip_by_none p s H).
  rewrite lstrip_by_none; [apply reverse_involutive|].
  now rewrite all_chars_reverse.
Qed.

Lemma all_chars_impl (p q : ascii -> bool) (s : string) :
  (forall c, p c = true -> q c = true) ->
  all_chars p s = true -> all_chars q s = true.
Proof.
  intros Hpq. induction s as [|c s IH]; simpl; [reflexivity|].
  intros H. apply andb_true_iff in H as [H1 H2].
  now rewrite (Hpq c H1), IH.
Qed.

Lemma is_digit_code (c : ascii) :
  is_digit c = true <-> (48 <= code c <= 57)%N.
Proof.
  unfold is_digit. rewrite andb_true_iff, !N.leb_le. tauto.
Qed.

Lemma digit_not_int_space (c : ascii) :
  is_digit c = true -> negb (is_int_space c) = true.
Proof.
  intros H. apply is_digit_code in H. unfold is_int_space.
  apply negb_true_iff.
  repeat (apply orb_false_iff; split);
    try (apply N.eqb_neq; lia).
  apply andb_false_iff. right. apply N.leb_gt. lia.
Qed.

Lemma int_body_digits (d : string) (acc : N) :
  all_chars is_digit d = true -> int_body acc false d = Some (value_from acc d).
Proof.
  revert acc; induction d as [|c d IH]; intros acc H; simpl in *.
  - reflexivity.
  - apply andb_true_iff in H as [Hc Hd]. rewrite Hc. now apply IH.
Qed.

Lemma py_int_number (d : string) : number d -> py_int d = Val (value d).
Proof.
  intros [N H]. unfold py_int.
  rewrite strip_by_none
    by (eapply all_chars_impl; [apply digit_not_int_space | exact H]).
  destruct d as [|c d]; [now elim N|]. simpl in H.
  apply andb_true_iff in H as [Hc Hd].
  destruct (Ascii.eqb c "+") eqn:E1;
    [apply Ascii.eqb_eq in E1; subst c; discriminate|].
  destruct (Ascii.eqb c "-") eqn:E2;
    [apply Ascii.eqb_eq in E2; subst c; discriminate|].
  unfold int_literal. rewrite Hc, (int_body_digits d _ Hd).
  reflexivity.
Qed.

(** ** [parse_tag] *)

Lemma int_group_here (i : nat) (d : string) (g : captures) :
  number d -> int_group ((i, d) :: g) i = Val (value d).
Proof.
  intros H. unfold int_group. simpl. rewrite Nat.eqb_refl.
  now apply py_int_number.
Qed.

Lemma re_match_VERSION_RE_official (a b c e : string) :
  number a -> number b -> number c -> at_eol e = true ->
  re_match VERSION_RE (official_text a b c ++ e)
  = Some [(g_patch, c); (g_minor, b); (g_major, a)].
Proof.
  intros Ha Hb Hc He. apply re_match_some.
  - now apply VERSION_RE_official.
  - intros m Hm. apply VERSION_RE_inv in Hm
      as (a' & b' & c' & e' & [[E G]|[n [E [G Hn]]]] & Ha' & Hb' & Hc' & He').
    + rewrite !official_text_app in E.
      apply tag_cut_unique in E as (-> & -> & -> & _);
        auto using at_eol_no_digit_head.
    + rewrite official_text_app, dev_text_app in E.
      apply tag_cut_unique in E as (_ & _ & _ & E);
        auto using at_eol_no_digit_head; [|reflexivity].
      apply at_eol_cases in He as [->| ->]; discriminate.
Qed.

Lemma re_match_VERSION_RE_dev (a b c n e : string) :
  number a -> number b -> number c -> number n -> at_eol e = true ->
  re_match VERSION_RE (dev_text a b c n ++ e)
  = Some [(g_dev, n); (g_patch, c); (g_minor, b); (g_major, a)].
Proof.
  intros Ha Hb Hc Hn He. apply re_match_some.
  - now apply VERSION_RE_dev.
  - intros m Hm. apply VERSION_RE_inv in Hm
      as (a' & b' & c' & e' & [[E G]|[n' [E [G Hn']]]] & Ha' & Hb' & Hc' & He').
    + rewrite official_text_app, dev_text_app in E.
      apply tag_cut_unique in E as (_ & _ & _ & E);
        auto using at_eol_no_digit_head; [|reflexivity].
      apply at_eol_cases in He' as [->| ->]; discriminate.
    + rewrite !dev_text_app in E.
      apply tag_cut_unique in E as (-> & -> & -> & E);
        auto; try reflexivity.
      simpl in E. injection E as E.
      apply digits_cut_unique in E as [-> _];
        auto using at_eol_no_digit_head; [apply Hn | apply Hn'].
Qed.

Lemma parse_tag_official (a b c e : string) :
  number a -> number b -> number c -> at_eol e = true ->
  parse_tag (official_text a b c ++ e)
  = Val (Some (value a, value b, value c, None)).
Proof.
  intros Ha Hb Hc He. unfold parse_tag.
  rewrite re_match_VERSION_RE_official by assumption.
  unfold int_group. simpl.
  now rewrite !py_int_number by assumption.
Qed.

Lemma parse_tag_dev (a b c n e : string) :
  number a -> number b -> number c -> number n -> at_eol e = true ->
  parse_tag (dev_text a b c n ++ e)
  = Val (Some (value a, value b, value c, Some (value n))).
Proof.
  intros Ha Hb Hc Hn He. unfold parse_tag.
  rewrite re_match_VERSION_RE_dev by assumption.
  unfold int_group. simpl.
  now rewrite !py_int_number by assumption.
Qed.

(** What [parse_tag] does on any string: it never raises, and it accepts
    exactly the grammar, possibly followed by what [$] lets through. *)
Lemma parse_tag_cases (s : string) :
  (exists s0 e v,
      s = s0 ++ e /\ at_eol e = true /\ tag_grammar s0 v /\
      parse_tag s = Val (Some v))
  \/ ((forall s0 e v, s = s0 ++ e -> at_eol e = true -> ~ tag_grammar s0 v)
      /\ parse_tag s = Val None).
Proof.
  destruct (re_match VERSION_RE s) as [g|] eqn:E.
  - left. apply re_match_inv in E as [m [Hm _]].
    apply VERSION_RE_inv in Hm
      as (a & b & c & e & [[-> _]|[n [-> [_ Hn]]]] & Ha & Hb & Hc & He).
    + exists (official_text a b c), e, (value a, value b, value c, None).
      repeat split; auto using parse_tag_official. now constructor.
    + exists (dev_text a b c n), e,
        (value a, value b, value c, Some (value n)).
      repeat split; auto using parse_tag_dev. now constructor.
  - right. split; [|unfold parse_tag; now rewrite E].
    intros s0 e v -> He Hg. destruct Hg.
    + rewrite re_match_VERSION_RE_official in E by assumption. discriminate.
    + rewrite re_match_VERSION_RE_dev in E by assumption. discriminate.
Qed.

Lemma tag_grammar_parse (s : string) (v : parsed_tag) :
  tag_grammar s v -> parse_tag s = Val (Some v).
Proof.
  intros H. destruct H.
  - rewrite <- (append_nil_r (official_text a b c)).
    now apply parse_tag_official.
  - rewrite <- (append_nil_r (dev_text a b c n)).
    now apply parse_tag_dev.
Qed.

Lemma one_line_app (a b : string) :
  one_line (a ++ b) <-> one_line a /\ one_line b.
Proof. unfold one_line. rewrite all_chars_app. apply andb_true_iff. Qed.

(** On a string without a line feed, [$] is the end of the string. *)
Lemma one_line_at_eol (s0 e : string) :
  one_line (s0 ++ e) -> at_eol e = true -> e = EmptyString.
Proof.
  intros H He. apply one_line_app in H as [_ H].
  apply at_eol_cases in He as [->| ->]; [reflexivity | discriminate].
Qed.

Lemma parse_tag_one_line (s : string) (v : parsed_tag) :
  one_line s -> parse_tag s = Val (Some v) -> tag_grammar s v.
Proof.
  intros Hs H. destruct (parse_tag_cases s)
    as [(s0 & e & v' & -> & He & Hg & H')|[_ H']]; [|congruence].
  rewrite (one_line_at_eol _ _ Hs He), append_nil_r in *.
  congruence.
Qed.

Lemma shared_grammar_iff (s : string) :
  shared_grammar s <-> exists v, tag_grammar s v.
Proof.
  split.
  - intros [(a & b & c & Ha & Hb & Hc & ->)|(a & b & c & n & Ha & Hb & Hc & Hn & ->)];
      eexists; now constructor.
  - intros [v H]. destruct H; [left | right].
    + now exists a, b, c.
    + now exists a, b, c, n.
Qed.

Lemma not_shared_grammar (s : string) :
  parse_tag s = Val None -> ~ shared_grammar s.
Proof.
  intros H G. apply shared_grammar_iff in G as [v G].
  apply tag_grammar_parse in G. congruence.
Qed.

Lemma number_one_line (d : string) : number d -> one_line d.
Proof.
  intros [_ H]. unfold one_line. eapply all_chars_impl; [|exact H].
  intros c Hc. destruct (Ascii.eqb c LF) eqn:E; [|reflexivity].
  apply Ascii.eqb_eq in E. subst c. discriminate.
Qed.




(** ** The patterns of the resolver *)

Lemma cls_mem_digit09 (c : ascii) : cls_mem digit09 c = is_digit c.
Proof. reflexivity. Qed.

Lemma all_chars_ext (p q : ascii -> bool) (s : string) :
  (forall c, p c = q c) -> all_chars p s = all_chars q s.
Proof.
  intros E. induction s as [|c s IH]; simpl; [reflexivity|].
  now rewrite E, IH.
Qed.

Lemma all_digit09 (a : string) :
  all_chars (cls_mem digit09) a = all_chars is_digit a.
Proof. apply all_chars_ext, cls_mem_digit09. Qed.

Lemma Matches_run09 bol (a t : string) (g : captures) :
  number a -> Matches (Plus digit09) bol (a ++ t) g (mk_matched a t g).
Proof.
  intros [N H]. apply M_Plus; [exact N|]. now rewrite all_digit09.
Qed.

Lemma Matches_Plus09_inv bol s g m :
  Matches (Plus digit09) bol s g m ->
  s = consumed m ++ remaining m /\ number (consumed m) /\ groups m = g.
Proof.
  intros H. apply Matches_Plus_inv in H as (E & N & H & G).
  rewrite all_digit09 in H. now repeat split.
Qed.

Ltac read_match09 :=
  repeat match goal with
  | H : Matches (Plus digit09) _ _ _ _ |- _ =>
      apply Matches_Plus09_inv in H; destruct H as (? & [? ?] & ?)
  | _ => match_step
  end;
  repeat match goal with m : matched |- _ => destruct m end;
  simpl in *; subst.

Lemma official_re_inv (s : string) (m : matched) :
  Matches official_re true s [] m ->
  exists a b c e,
    s = official_text a b c ++ e
    /\ number a /\ number b /\ number c /\ at_eol e = true.
Proof.
  unfold official_re. intros H. read_match09.
  do 4 eexists. split; [rewrite official_text_app; reflexivity|].
  repeat split; assumption.
Qed.

Lemma official_re_intro (a b c e : string) :
  number a -> number b -> number c -> at_eol e = true ->
  exists m, Matches official_re true (official_text a b c ++ e) [] m.
Proof.
  intros Ha Hb Hc He. rewrite official_text_app.
  eexists. unfold official_re.
  eapply Matches_Cat_intro; [apply M_Bol | simpl | reflexivity].
  eapply Matches_Cat_intro; [apply (Matches_run09 _ a), Ha | simpl | reflexivity].
  eapply Matches_Cat_intro; [apply (M_Lit _ ".") | simpl | reflexivity].
  eapply Matches_Cat_intro; [apply (Matches_run09 _ b), Hb | simpl | reflexivity].
  eapply Matches_Cat_intro; [apply (M_Lit _ ".") | simpl | reflexivity].
  eapply Matches_Cat_intro; [apply (Matches_run09 _ c), Hc | simpl | reflexivity].
  now apply M_Eol.
Qed.

Lemma matches_official_re (s : string) :
  matches official_re s = true
  <-> exists a b c e,
        s = official_text a b c ++ e
        /\ number a /\ number b /\ number c /\ at_eol e = true.
Proof.
  rewrite matches_iff. split.
  - intros [m H]. now apply official_re_inv in H.
  - intros (a & b & c & e & -> & Ha & Hb & Hc & He).
    now apply official_re_intro.
Qed.

Lemma any_version_re_inv (s : string) (m : matched) :
  Matches any_version_re true s [] m ->
  exists a b c rest e,
    s = official_text a b c ++ rest ++ e
    /\ number a /\ number b /\ number c /\ one_line rest /\ at_eol e = true.
Proof.
  unfold any_version_re. intros H. read_match09.
  do 5 eexists. split; [rewrite official_text_app; reflexivity|].
  repeat split; assumption.
Qed.

Lemma any_version_re_intro (a b c rest e : string) :
  number a -> number b -> number c -> one_line rest -> at_eol e = true ->
  exists m, Matches any_version_re true (official_text a b c ++ rest ++ e) [] m.
Proof.
  intros Ha Hb Hc Hr He. rewrite official_text_app.
  eexists. unfold any_version_re.
  eapply Matches_Cat_intro; [apply M_Bol | simpl | reflexivity].
  eapply Matches_Cat_intro; [apply (Matches_run09 _ a), Ha | simpl | reflexivity].
  eapply Matches_Cat_intro; [apply (M_Lit _ ".") | simpl | reflexivity].
  eapply Matches_Cat_intro; [apply (Matches_run09 _ b), Hb | simpl | reflexivity].
  eapply Matches_Cat_intro; [apply (M_Lit _ ".") | simpl | reflexivity].
  eapply Matches_Cat_intro; [apply (Matches_run09 _ c), Hc | simpl | reflexivity].
  eapply Matches_Cat_intro;
    [apply (M_Star _ Dot rest e); exact Hr | simpl | reflexivity].
  now apply M_Eol.
Qed.

Lemma matches_any_version_re (s : string) :
  matches any_version_re s = true
  <-> exists a b c rest e,
        s = official_text a b c ++ rest ++ e
        /\ number a /\ number b /\ number c /\ one_line rest
        /\ at_eol e = true.
Proof.
  rewrite matches_iff. split.
  - intros [m H]. now apply any_version_re_inv in H.
  - intros (a & b & c & rest & e & -> & Ha & Hb & Hc & Hr & He).
    now apply any_version_re_intro.
Qed.

Lemma dev_re_inv (s : string) (m : matched) :
  Matches dev_re true s [] m ->
  exists a b c n e,
    s = dev_text a b c n ++ e
    /\ groups m = [(2%nat, n); (1%nat, official_text a b c)]
    /\ number a /\ number b /\ number c /\ number n /\ at_eol e = true.
Proof.
  unfold dev_re. intros H. read_match09.
  do 5 eexists. split; [rewrite dev_text_app; reflexivity|].
  split; [reflexivity|]. repeat split; assumption.
Qed.


Lemma shared_grammar_any_version (s : string) :
  shared_grammar s -> matches any_version_re s = true.
Proof.
  intros [(a & b & c & Ha & Hb & Hc & ->)|(a & b & c & n & Ha & Hb & Hc & Hn & ->)];
    apply matches_any_version_re.
  - exists a, b, c, EmptyString, EmptyString. simpl.
    rewrite append_nil_r.
    do 4 (split; [first [reflexivity | assumption]|]). split; reflexivity.
  - exists a, b, c, ("-dev." ++ n), EmptyString.
    rewrite append_nil_r.
    do 4 (split; [first [reflexivity | assumption]|]). split; [|reflexivity].
    apply one_line_app. split; [reflexivity | now apply number_one_line].
Qed.

(** C4 fails as stated: the resolver's filter keeps a tag with another
    suffix than [-dev.N]. *)
Lemma version_filter_keeps_rc_tag :
  matches any_version_re "1.2.3-rc.1" = true
  /\ ~ shared_grammar "1.2.3-rc.1"
  /\ version_tags_of "1.2.3-rc.1" = ["1.2.3-rc.1"].
Proof.
  split; [reflexivity|]. split; [|reflexivity].
  now apply not_shared_grammar.
Qed.

(** C4, amended: the filter of [get_git_version_tags] keeps a tag if and
    only if the tag begins with MAJOR.MINOR.PATCH, three non-empty runs of
    digits separated by dots, whatever follows on the same line (a line
    feed may only be the last character).  So every tag of the shared
    grammar is kept, and so are tags such as "1.2.3-rc.1" and "1.2.3.4". *)
Theorem version_filter_is_a_prefix_test :
  (forall s,
     matches any_version_re s = true
     <-> exists a b c rest e,
           s = official_text a b c ++ rest ++ e
           /\ number a /\ number b /\ number c /\ one_line rest
           /\ at_eol e = true)
  /\ (forall s, one_line s ->
        (matches any_version_re s = true
         <-> exists a b c rest,
               s = official_text a b c ++ rest
               /\ number a /\ number b /\ number c))
  /\ (forall s, shared_grammar s -> matches any_version_re s = true)
  /\ (forall out t,
        In t (version_tags_of out)
        <-> In t (splitlines (strip out)) /\ matches any_version_re t = true)
  /\ matches any_version_re "1.2.3-rc.1" = true
  /\ matches any_version_re "1.2.3.4" = true.
Proof.
  split; [exact matches_any_version_re|].
  split; [|split; [exact shared_grammar_any_version|split]].
  - intros s Hs. rewrite matches_any_version_re. split.
    + intros (a & b & c & rest & e & -> & Ha & Hb & Hc & Hr & He).
      rewrite <- !append_assoc in Hs.
      rewrite (one_line_at_eol _ _ Hs He), append_nil_r.
      now exists a, b, c, rest.
    + intros (a & b & c & rest & -> & Ha & Hb & Hc).
      exists a, b, c, rest, EmptyString. rewrite append_nil_r.
      apply one_line_app in Hs as [_ Hs].
      do 5 (split; [first [reflexivity | assumption]|]). reflexivity.
  - intros out t. unfold version_tags_of. apply filter_In.
  - split; reflexivity.
Qed.

(** ** Lines *)

Lemma no_break_reverse (s : string) : no_break (reverse s) <-> no_break s.
Proof. unfold no_break. now rewrite all_chars_reverse. Qed.

Lemma splitlines_from_no_break (n : nat) :
  forall s cur, (String.length s <= n)%nat -> no_break cur ->
  forall t, In t (splitlines_from cur s) -> no_break t.
Proof.
  induction n as [|n IH]; intros s cur Hn Hcur t.
  - destruct s; [|simpl in Hn; lia]. simpl.
    destruct (is_empty cur); [intros [] | intros [<-|[]]].
    now apply no_break_reverse.
  - destruct s as [|c s]; simpl.
    + destruct (is_empty cur); [intros [] | intros [<-|[]]].
      now apply no_break_reverse.
    + simpl in Hn. destruct (Ascii.eqb c CR).
      * destruct s as [|c' s].
        -- intros [<-|[]]. now apply no_break_reverse.
        -- destruct (Ascii.eqb c' LF); intros [<-|H];
             try (now apply no_break_reverse).
           ++ apply (IH s EmptyString); [simpl in Hn; lia | reflexivity | exact H].
           ++ apply (IH (String c' s) EmptyString); [lia | reflexivity | exact H].
      * destruct (is_linebreak c) eqn:Hc.
        -- intros [<-|H]; [now apply no_break_reverse|].
           apply (IH s EmptyString); [lia | reflexivity | exact H].
        -- apply (IH s (String c cur)); [lia|].
           unfold no_break in *. simpl. now rewrite Hc.
Qed.

Lemma splitlines_no_break (out t : string) :
  In t (splitlines out) -> no_break t.
Proof.
  apply (splitlines_from_no_break (String.length out)); [lia | reflexivity].
Qed.

Lemma no_break_one_line (t : string) : no_break t -> one_line t.
Proof.
  unfold no_break, one_line. apply all_chars_impl.
  intros c Hc. destruct (Ascii.eqb c LF) eqn:E; [|reflexivity].
  apply Ascii.eqb_eq in E. subst c. discriminate.
Qed.

Lemma splitlines_one_line (out t : string) :
  In t (splitlines out) -> one_line t.
Proof. intros H. now apply no_break_one_line, (splitlines_no_break out). Qed.

(** ** [next_dev_tag_of] *)


Lemma re_match_dev_re_official (a b c e : string) :
  number a -> number b -> number c -> at_eol e = true ->
  re_match dev_re (official_text a b c ++ e) = None.
Proof.
  intros Ha Hb Hc He. apply re_match_none. intros m Hm.
  apply dev_re_inv in Hm
    as (a' & b' & c' & n' & e' & E & G & Ha' & Hb' & Hc' & Hn' & He').
  rewrite official_text_app, dev_text_app in E.
  apply tag_cut_unique in E as (_ & _ & _ & E);
    auto using at_eol_no_digit_head; [|reflexivity].
  apply at_eol_cases in He as [->| ->]; discriminate.
Qed.

(** Splitting at a character a run does not hold. *)
Lemma split_on_run (sep : ascii) (d t cur : string) :
  all_chars (fun c => negb (Ascii.eqb c sep)) d = true ->
  split_on sep cur (d ++ t) = split_on sep (rev_str cur d) t.
Proof.
  revert cur; induction d as [|x d IH]; intros cur H; simpl in *.
  - reflexivity.
  - apply andb_true_iff in H as [Hx Hd].
    apply negb_true_iff in Hx. rewrite Hx. now apply IH.
Qed.

Lemma number_no_dot (d : string) :
  number d -> all_chars (fun c => negb (Ascii.eqb c ".")) d = true.
Proof.
  intros [_ H]. eapply all_chars_impl; [|exact H].
  intros c Hc. destruct (Ascii.eqb c ".") eqn:E; [|reflexivity].
  apply Ascii.eqb_eq in E. subst c. discriminate.
Qed.

Lemma reverse_rev_str (d : string) : reverse (rev_str EmptyString d) = d.
Proof. apply reverse_involutive. Qed.

Lemma split_official (a b c : string) :
  number a -> number b -> number c ->
  split "." (official_text a b c) = [a; b; c].
Proof.
  intros Ha Hb Hc. unfold split, official_text.
  rewrite split_on_run by now apply number_no_dot. simpl.
  rewrite reverse_rev_str. f_equal.
  rewrite split_on_run by now apply number_no_dot. simpl.
  rewrite reverse_rev_str. f_equal.
  rewrite <- (append_nil_r c) at 1.
  rewrite split_on_run by now apply number_no_dot. simpl.
  now rewrite reverse_rev_str.
Qed.


Lemma next_dev_tag_of_official (a b c : string) :
  number a -> number b -> number c ->
  next_dev_tag_of (official_text a b c)
  = Val (false, a ++ "." ++ b ++ "." ++ py_str (value c + 1) ++ "-dev.1").
Proof.
  intros Ha Hb Hc. unfold next_dev_tag_of.
  rewrite <- (append_nil_r (official_text a b c)) at 1.
  rewrite re_match_dev_re_official by auto.
  rewrite split_official by assumption. simpl.
  now rewrite py_int_number.
Qed.


(** ** The resolver as a whole *)

Lemma last_item_In {A} (l : list A) (x : A) : last_item l = Some x -> In x l.
Proof.
  unfold last_item. destruct (rev l) as [|y r] eqn:E; [discriminate|].
  intros [= ->]. apply in_rev. rewrite E. now left.
Qed.

Lemma last_item_None {A} (l : list A) : last_item l = None <-> l = [].
Proof.
  unfold last_item. split.
  - destruct (rev l) as [|y r] eqn:E; [|discriminate].
    intros _. rewrite <- (rev_involutive l), E. reflexivity.
  - now intros ->.
Qed.

Section ResolverFacts.

Variable World : Type.
Variable git : World -> list string -> World * completed.
Variable str_CalledProcessError : list string -> Z -> string.


(** The run of the script, case by case. *)
Lemma resolve_run (GITHUB_ENV : option string) (w w1 : World) (r : completed) :
  git w listing_cmd = (w1, r) ->
  resolve World git str_CalledProcessError GITHUB_ENV w =
  if negb (returncode r =? 0)%Z then
    ([EGit listing_cmd r;
      EPrintErr ("Error running git tag: "
                 ++ str_CalledProcessError ("git" :: listing_cmd) (returncode r))],
     w1, Exit 1%Z)
  else
    let version_tags := version_tags_of (stdout r) in
    match last_item version_tags with
    | None =>
        ([EGit listing_cmd r;
          EPrint "Error: No version tags found in repository!"], w1, Exit 1%Z)
    | Some last_version_tag =>
        match last_item (official_tags_of version_tags) with
        | None =>
            ([EGit listing_cmd r;
              EPrint "Error: Latest official release tag (X.Y.Z) not found!"],
             w1, Exit 1%Z)
        | Some latest_official_tag =>
            let latest_tag := latest_tag_of latest_official_tag last_version_tag in
            match next_dev_tag_of latest_tag with
            | Exn e =>
                ([EGit listing_cmd r;
                  EPrint ("Latest release tag: " ++ latest_tag)], w1, Raise e)
            | Val (incremented, next_dev_tag) =>
                ((EGit listing_cmd r
                  :: resolver_output incremented latest_tag latest_official_tag
                       next_dev_tag
                  ++ env_lines GITHUB_ENV latest_official_tag next_dev_tag)%list,
                 w1, Ret tt)
            end
        end
    end.
Proof.
  unfold listing_cmd. intros E.
  unfold resolve, get_git_version_tags, bind, subprocess_run. rewrite E.
  destruct (negb (returncode r =? 0)%Z); [reflexivity|]. simpl.
  destruct (last_item (version_tags_of (stdout r))) as [L|]; [|reflexivity].
  destruct (last_item (official_tags_of (version_tags_of (stdout r)))) as [Lo|];
    [|reflexivity].
  unfold eval. destruct (next_dev_tag_of (latest_tag_of Lo L)) as [[inc next]|e];
    [|reflexivity].
  unfold print, append_to, ret, resolver_output, env_lines.
  destruct GITHUB_ENV as [path|]; [|reflexivity].
  destruct (is_empty path); reflexivity.
Qed.

Lemma filter_nil {A} (f : A -> bool) (l : list A) :
  (forall x, In x l -> f x = false) -> filter f l = [].
Proof.
  induction l as [|x l IH]; intros H; simpl; [reflexivity|].
  rewrite (H x (or_introl eq_refl)). apply IH. intros y Hy. apply H. now right.
Qed.

Lemma official_line (t : string) :
  one_line t -> matches official_re t = true -> official_form t.
Proof.
  intros Ht H. apply matches_official_re in H
    as (a & b & c & e & -> & Ha & Hb & Hc & He).
  rewrite (one_line_at_eol _ _ Ht He), append_nil_r.
  now exists a, b, c.
Qed.

Lemma version_tags_lines (out t : string) :
  In t (version_tags_of out) -> In t (splitlines (strip out)).
Proof. unfold version_tags_of. intros H. now apply filter_In in H. Qed.



(** C8: when the listing holds no official tag MAJOR.MINOR.PATCH, the run
    prints one error message and exits with status 1; it prints no
    NEXT_DEV_TAG or LATEST_RELEASE_TAG line and appends nothing to the
    output file.  The message says that no version tag was found when no
    line is version-like, and that no official tag was found otherwise. *)
Theorem resolver_fatal_without_official_tag
    (GITHUB_ENV : option string) (w w1 : World) (r : completed) :
  git w listing_cmd = (w1, r) ->
  returncode r = 0%Z ->
  (forall t, In t (splitlines (strip (stdout r))) -> ~ official_form t) ->
  exists msg,
    resolve World git str_CalledProcessError GITHUB_ENV w
    = ([EGit listing_cmd r; EPrint msg], w1, Exit 1%Z)
    /\ (version_tags_of (stdout r) = [] ->
        msg = "Error: No version tags found in repository!")
    /\ (version_tags_of (stdout r) <> [] ->
        msg = "Error: Latest official release tag (X.Y.Z) not found!").
Proof.
  intros E Hr Hno.
  pose proof (resolve_run GITHUB_ENV w w1 r E) as R.
  rewrite Hr in R. change (negb (0 =? 0)%Z) with false in R.
  cbv beta zeta iota in R.
  assert (Ho : official_tags_of (version_tags_of (stdout r)) = []).
  { apply filter_nil. intros t Ht. apply version_tags_lines in Ht.
    destruct (matches official_re t) eqn:M; [|reflexivity].
    elim (Hno t Ht). apply official_line; [|exact M].
    now apply (splitlines_one_line (strip (stdout r))). }
  rewrite Ho in R. change (last_item (@nil string)) with (@None string) in R.
  destruct (last_item (version_tags_of (stdout r))) as [L|] eqn:Hl.
  - eexists. split; [exact R|]. split; [|reflexivity].
    intros Hv. rewrite Hv in Hl. discriminate.
  - eexists. split; [exact R|]. split; [reflexivity|].
    intros Hv. now apply last_item_None in Hl.
Qed.


End ResolverFacts.

(** ** Version keys *)

Lemma key_eqb_eq (a b : ver_key) : key_eqb a b = true <-> a = b.
Proof.
  destruct a as [[a1 a2] a3], b as [[b1 b2] b3]. unfold key_eqb.
  rewrite !andb_true_iff, !Z.eqb_eq. split.
  - intros [[-> ->] ->]. reflexivity.
  - intros [= -> -> ->]. now repeat split.
Qed.

Lemma key_in_iff (k : ver_key) (l : list ver_key) :
  key_in k l = true <-> In k l.
Proof.
  unfold key_in. rewrite existsb_exists. split.
  - intros [x [Hx E]]. apply key_eqb_eq in E. now subst.
  - intros H. exists k. split; [exact H | now apply key_eqb_eq].
Qed.

Lemma key_in_false (k : ver_key) (l : list ver_key) :
  key_in k l = false <-> ~ In k l.
Proof.
  rewrite <- key_in_iff. destruct (key_in k l); split; congruence.
Qed.

Lemma key_ltb_lt (a b : ver_key) : key_ltb a b = true <-> key_lt a b.
Proof.
  destruct a as [[a1 a2] a3], b as [[b1 b2] b3]. unfold key_ltb, key_lt.
  destruct (Z.eqb_spec a1 b1), (Z.eqb_spec a2 b2);
    rewrite Z.ltb_lt; lia.
Qed.

Lemma key_lt_irrefl (a : ver_key) : ~ key_lt a a.
Proof. destruct a as [[a1 a2] a3]. unfold key_lt. lia. Qed.

Lemma key_lt_trans (a b c : ver_key) : key_lt a b -> key_lt b c -> key_lt a c.
Proof.
  destruct a as [[a1 a2] a3], b as [[b1 b2] b3], c as [[c1 c2] c3].
  unfold key_lt. lia.
Qed.

Lemma key_lt_total (a b : ver_key) : key_lt a b \/ a = b \/ key_lt b a.
Proof.
  destruct a as [[a1 a2] a3], b as [[b1 b2] b3]. unfold key_lt.
  destruct (Z.lt_total a1 b1) as [?|[->|?]]; [lia| |lia].
  destruct (Z.lt_total a2 b2) as [?|[->|?]]; [lia| |lia].
  destruct (Z.lt_total a3 b3) as [?|[->|?]]; [lia| |lia].
  right. now left.
Qed.

(** ** [sorted] *)

Lemma insert_by_In {A} (lt : A -> A -> bool) (x y : A) (l : list A) :
  In y (insert_by lt x l) <-> y = x \/ In y l.
Proof.
  induction l as [|z l IH]; simpl.
  - intuition.
  - destruct (lt x z); simpl; [intuition|]. rewrite IH. intuition.
Qed.

Lemma sorted_by_In {A} (lt : A -> A -> bool) (y : A) (l : list A) :
  In y (sorted_by lt l) <-> In y l.
Proof.
  unfold sorted_by.
  assert (G : forall acc,
             In y (fold_left (fun a x => insert_by lt x a) l acc)
             <-> In y l \/ In y acc).
  { induction l as [|x l IH]; intros acc; simpl; [intuition|].
    rewrite IH, insert_by_In. intuition. }
  rewrite G. simpl. intuition.
Qed.

Lemma insert_by_length {A} (lt : A -> A -> bool) (x : A) (l : list A) :
  List.length (insert_by lt x l) = S (List.length l).
Proof.
  induction l as [|z l IH]; simpl; [reflexivity|].
  destruct (lt x z); simpl; [reflexivity | now rewrite IH].
Qed.

Lemma insert_key_sorted (x : ver_key) (l : list ver_key) :
  StronglySorted key_lt l -> ~ In x l ->
  StronglySorted key_lt (insert_by key_ltb x l).
Proof.
  induction 1 as [|y l Hs IH Hy]; intros Hx; simpl.
  - repeat constructor.
  - destruct (key_ltb x y) eqn:E.
    + apply key_ltb_lt in E. constructor; [now constructor|].
      constructor; [exact E|].
      apply Forall_forall. intros z Hz.
      apply (key_lt_trans x y z E).
      rewrite Forall_forall in Hy. now apply Hy.
    + assert (Hyx : key_lt y x).
      { destruct (key_lt_total x y) as [H|[H|H]]; [|subst|exact H].
        - apply key_ltb_lt in H. congruence.
        - elim Hx. now left. }
      constructor.
      * apply IH. intros H. apply Hx. now right.
      * apply Forall_forall. intros z Hz. apply insert_by_In in Hz as [->|Hz];
          [exact Hyx|]. rewrite Forall_forall in Hy. now apply Hy.
Qed.

Lemma sorted_official_sorted (l : list ver_key) :
  NoDup l -> StronglySorted key_lt (sorted_official_of l).
Proof.
  unfold sorted_official_of, sorted_by.
  assert (G : forall acc,
             NoDup l -> StronglySorted key_lt acc ->
             (forall x, In x l -> ~ In x acc) ->
             StronglySorted key_lt
               (fold_left (fun a x => insert_by key_ltb x a) l acc)).
  { induction l as [|x l IH]; intros acc Hl Ha Hd; simpl; [exact Ha|].
    inversion Hl as [|? ? Hx Hl']; subst.
    apply IH; [exact Hl'| |].
    - apply insert_key_sorted; [exact Ha|]. apply Hd. now left.
    - intros y Hy Hin. apply insert_by_In in Hin as [->|Hin];
        [contradiction|]. apply (Hd y); [now right | exact Hin]. }
  intros Hl. apply G; [exact Hl | constructor | intros x _ []].
Qed.

Lemma strictly_sorted_unique (l1 l2 : list ver_key) :
  StronglySorted key_lt l1 -> StronglySorted key_lt l2 ->
  (forall x, In x l1 <-> In x l2) -> l1 = l2.
Proof.
  intros H1. revert l2. induction H1 as [|a l1 Hs1 IH Ha]; intros l2 H2 E.
  - destruct l2 as [|b l2]; [reflexivity|].
    destruct (proj2 (E b) (or_introl eq_refl)).
  - destruct H2 as [|b l2 Hs2 Hb].
    + destruct (proj1 (E a) (or_introl eq_refl)).
    + rewrite Forall_forall in Ha, Hb.
      assert (a = b).
      { destruct (proj1 (E a) (or_introl eq_refl)) as [->|Hab]; [reflexivity|].
        destruct (proj2 (E b) (or_introl eq_refl)) as [->|Hba]; [reflexivity|].
        elim (key_lt_irrefl a). apply (key_lt_trans a b a); auto. }
      subst b. f_equal. apply IH; [exact Hs2|].
      intros x. split; intros Hx.
      * destruct (proj1 (E x) (or_intror Hx)) as [<-|H]; [|exact H].
        elim (key_lt_irrefl a). auto.
      * destruct (proj2 (E x) (or_intror Hx)) as [<-|H]; [|exact H].
        elim (key_lt_irrefl a). auto.
Qed.

(** [l[-2:] if len(l) >= 2 else l] is the last two entries, or all. *)
Lemma latest_two_protected (l : list ver_key) : latest_two_of l = protected_of l.
Proof.
  unfold latest_two_of, protected_of, last_two.
  destruct (rev l) as [|x [|y r]] eqn:E.
  - apply (f_equal (@rev _)) in E. rewrite rev_involutive in E. now subst.
  - apply (f_equal (@rev _)) in E. rewrite rev_involutive in E. now subst.
  - apply (f_equal (@rev _)) in E. rewrite rev_involutive in E. subst l.
    change (rev (x :: y :: r)) with ((rev r ++ [y]) ++ [x])%list.
    rewrite <- app_assoc.
    change ([y] ++ [x])%list with [y; x].
    assert (L : List.length (rev r ++ [y; x]) = (List.length (rev r) + 2)%nat)
      by (rewrite length_app; reflexivity).
    rewrite L.
    destruct (Nat.leb_spec 2 (List.length (rev r) + 2)) as [_|H]; [|lia].
    replace (List.length (rev r) + 2 - 2)%nat with (List.length (rev r) + 0)%nat
      by lia.
    rewrite skipn_app, skipn_all2 by lia.
    replace (List.length (rev r) + 0 - List.length (rev r))%nat with 0%nat by lia.
    reflexivity.
Qed.

(** ** The buckets of the pruner *)

Lemma set_add_In (k x : ver_key) (s : list ver_key) :
  In x (set_add k s) <-> x = k \/ In x s.
Proof.
  unfold set_add. destruct (key_in k s) eqn:E.
  - apply key_in_iff in E. split; [now right | intros [->|H]; assumption].
  - rewrite in_app_iff. simpl. intuition.
Qed.

Lemma set_add_NoDup (k : ver_key) (s : list ver_key) :
  NoDup s -> NoDup (set_add k s).
Proof.
  intros H. unfold set_add. destruct (key_in k s) eqn:E; [exact H|].
  apply key_in_false in E.
  apply NoDup_rev in H. rewrite <- (rev_involutive (s ++ [k])).
  apply NoDup_rev. rewrite rev_unit. constructor; [|exact H].
  now rewrite <- in_rev.
Qed.

Lemma setdefault_append_member (k x : ver_key) (tag t : string)
    (d : list (ver_key * list string)) :
  dev_member (setdefault_append k tag d) x t
  <-> (x = k /\ t = tag) \/ dev_member d x t.
Proof.
  unfold dev_member. induction d as [|[k' l] d IH]; simpl.
  - split.
    + intros [l0 [[E|[]] Ht]]. injection E as <- <-.
      destruct Ht as [<-|[]]. now left.
    + intros [[-> ->]|[l0 [[] _]]]. exists [tag]. split; now left.
  - destruct (key_eqb k k') eqn:E.
    + apply key_eqb_eq in E. subst k'. split.
      * intros [l0 [[E|H] Ht]].
        -- injection E as <- <-. apply in_app_iff in Ht as [Ht|[<-|[]]].
           ++ right. exists l. split; [now left | exact Ht].
           ++ now left.
        -- right. exists l0. split; [now right | exact Ht].
      * intros [[-> ->]|[l0 [[E|H] Ht]]].
        -- exists (l ++ [tag])%list. split; [now left|].
           apply in_app_iff. right. now left.
        -- injection E as <- <-. exists (l ++ [tag])%list.
           split; [now left|]. apply in_app_iff. now left.
        -- exists l0. split; [now right | exact Ht].
    + split.
      * intros [l0 [[E'|H] Ht]].
        -- right. exists l0. split; [now left | exact Ht].
        -- destruct (proj1 IH) as [H'|[l1 [H1 H2]]];
             [now exists l0 | now left|].
           right. exists l1. split; [now right | exact H2].
      * intros [H|[l0 [[E'|H] Ht]]].
        -- destruct (proj2 IH (or_introl H)) as [l1 [H1 H2]].
           exists l1. split; [now right | exact H2].
        -- exists l0. split; [now left | exact Ht].
        -- destruct (proj2 IH) as [l1 [H1 H2]];
             [right; now exists l0|].
           exists l1. split; [now right | exact H2].
Qed.

Lemma parse_tag_total (t : string) : exists r, parse_tag t = Val r.
Proof.
  destruct (parse_tag_cases t)
    as [(s0 & e & v' & -> & He & Hg & H')|[_ H']]; eauto.
Qed.

(** The loop of step 2 never raises; it collects the keys of the official
    tags, without repeats, and every dev tag under its key. *)
Lemma categorise_spec (tags : list string) :
  forall b, exists b',
    categorise tags b = Val b'
    /\ (forall k, In k (official_versions b')
                  <-> In k (official_versions b) \/ official_key tags k)
    /\ (forall k t, dev_member (dev_tags_by_version b') k t
                    <-> dev_member (dev_tags_by_version b) k t
                        \/ dev_tag_of tags t k)
    /\ (NoDup (official_versions b) -> NoDup (official_versions b')).
Proof.
  unfold official_key, dev_tag_of.
  induction tags as [|tag tags IH]; intros b; simpl.
  - exists b. split; [reflexivity|]. split; [|split].
    + intros k. split; [now left | intros [H|[t [[] _]]]; exact H].
    + intros k t. split; [now left | intros [H|[[] _]]; exact H].
    + trivial.
  - destruct (parse_tag_total tag) as [[[[[ma mi] pa] [n|]]|] P];
      rewrite P; simpl.
    + destruct (IH (mk_buckets (official_versions b)
                      (setdefault_append (ma, mi, pa) tag (dev_tags_by_version b))))
        as (b' & E & Ho & Hd & Hn).
      exists b'. simpl in *. split; [exact E|]. split; [|split; [|exact Hn]].
      * intros k. rewrite Ho. split.
        -- intros [H|[t [Ht Hp]]]; [now left|]. right. exists t. auto.
        -- intros [H|[t [[<-|Ht] Hp]]]; [now left|congruence|].
           right. exists t. auto.
      * intros k t. rewrite Hd, setdefault_append_member. split.
        -- intros [[[-> ->]|H]|[Ht Hp]]; [|now left|].
           ++ right. split; [now left | now exists n].
           ++ right. split; [now right | exact Hp].
        -- intros [H|[[<-|Ht] [n' Hp]]].
           ++ left. now right.
           ++ left. left. split; [congruence | reflexivity].
           ++ right. split; [exact Ht | now exists n'].
    + destruct (IH (mk_buckets (set_add (ma, mi, pa) (official_versions b))
                      (dev_tags_by_version b)))
        as (b' & E & Ho & Hd & Hn).
      exists b'. simpl in *. split; [exact E|]. split; [|split].
      * intros k. rewrite Ho, set_add_In. split.
        -- intros [[->|H]|[t [Ht Hp]]]; [|now left|].
           ++ right. exists tag. split; [now left | exact P].
           ++ right. exists t. auto.
        -- intros [H|[t [[<-|Ht] Hp]]].
           ++ left. now right.
           ++ left. left. congruence.
           ++ right. exists t. auto.
      * intros k t. rewrite Hd. split.
        -- intros [H|[Ht Hp]]; [now left|]. right. auto.
        -- intros [H|[[<-|Ht] [n' Hp]]]; [now left|congruence|].
           right. split; [exact Ht | now exists n'].
      * intros H. now apply Hn, set_add_NoDup.
    + destruct (IH b) as (b' & E & Ho & Hd & Hn).
      exists b'. split; [exact E|]. split; [|split; [|exact Hn]].
      * intros k. rewrite Ho. split.
        -- intros [H|[t [Ht Hp]]]; [now left|]. right. exists t. auto.
        -- intros [H|[t [[<-|Ht] Hp]]]; [now left|congruence|].
           right. exists t. auto.
      * intros k t. rewrite Hd. split.
        -- intros [H|[Ht Hp]]; [now left|]. right. auto.
        -- intros [H|[[<-|Ht] [n' Hp]]]; [now left|congruence|].
           right. split; [exact Ht | now exists n'].
Qed.

Lemma tags_to_delete_In (latest_two : list ver_key)
    (d : list (ver_key * list string)) (t : string) :
  In t (tags_to_delete_of latest_two d)
  <-> exists k, dev_member d k t /\ ~ In k latest_two.
Proof.
  unfold dev_member. induction d as [|[k l] d IH]; simpl.
  - split; [intros [] | intros [k [[l [[] _]] _]]].
  - destruct (key_in k latest_two) eqn:E.
    + rewrite IH. split.
      * intros [k' [[l' [H1 H2]] H3]]. exists k'. split; [|exact H3].
        exists l'. split; [now right | exact H2].
      * intros [k' [[l' [[E'|H1] H2]] H3]].
        -- injection E' as <- <-. apply key_in_iff in E. contradiction.
        -- exists k'. split; [|exact H3]. now exists l'.
    + apply key_in_false in E. rewrite in_app_iff, IH. split.
      * intros [H|[k' [[l' [H1 H2]] H3]]].
        -- exists k. split; [|exact E]. exists l. split; [now left | exact H].
        -- exists k'. split; [|exact H3]. exists l'. split; [now right | exact H2].
      * intros [k' [[l' [[E'|H1] H2]] H3]].
        -- injection E' as <- <-. now left.
        -- right. exists k'. split; [|exact H3]. now exists l'.
Qed.

(** ** The decision of the pruner *)

Lemma plan_of_cases (tags : list string) :
  (tags = [] /\ plan_of tags = Val NoTags)
  \/ (tags <> [] /\ (forall k, ~ official_key tags k)
      /\ plan_of tags = Val NoOfficial)
  \/ (exists so del,
        plan_of tags = Val (Delete so (latest_two_of so) del)
        /\ (exists k, official_key tags k)
        /\ StronglySorted key_lt so
        /\ (forall k, In k so <-> official_key tags k)
        /\ (forall t, In t del
                      <-> exists k, dev_tag_of tags t k
                                    /\ ~ In k (latest_two_of so))).
Proof.
  destruct tags as [|tag tags]; [left; now split|]. right.
  destruct (categorise_spec (tag :: tags) (mk_buckets [] []))
    as (b & E & Ho & Hd & Hn).
  unfold plan_of. rewrite E. simpl in Ho, Hd, Hn. simpl py_bind.
  destruct (official_versions b) as [|k0 ks] eqn:Eo.
  - left. split; [discriminate|]. split; [|reflexivity].
    intros k H. apply (proj2 (Ho k)). now right.
  - right. rewrite <- Eo in *.
    exists (sorted_official_of (official_versions b)),
      (tags_to_delete_of
         (latest_two_of (sorted_official_of (official_versions b)))
         (dev_tags_by_version b)).
    split; [reflexivity|]. split; [|split; [|split]].
    + exists k0. destruct (proj1 (Ho k0)) as [[]|H]; [|exact H].
      rewrite Eo. now left.
    + apply sorted_official_sorted, Hn. constructor.
    + intros k. unfold sorted_official_of. rewrite sorted_by_In, Ho.
      split; [intros [[]|H]; exact H | now right].
    + intros t. rewrite tags_to_delete_In. split.
      * intros [k [H1 H2]]. exists k. split; [|exact H2].
        apply Hd in H1 as [[l [[] _]]|H1]. exact H1.
      * intros [k [H1 H2]]. exists k. split; [|exact H2].
        apply Hd. now right.
Qed.

(** C1 fails as stated: with no official tag there is no protected
    lineage, so the claim has every dev tag marked, but [main] returns at
    "Nothing to do" before it marks any. *)
Lemma pruner_marks_nothing_without_official_tag :
  dev_tag_of ["1.0.0-dev.1"] "1.0.0-dev.1" (1, 0, 0)%Z
  /\ (forall k, ~ official_key ["1.0.0-dev.1"] k)
  /\ plan_of ["1.0.0-dev.1"] = Val NoOfficial
  /\ main repo fake_git false (mk_repo ["1.0.0-dev.1"] ["1.0.0-dev.1"])
     = ([EGit ["tag"; "--list"]
           (mk_completed 0 ("1.0.0-dev.1" ++ nl) EmptyString);
         EPrint "No official release tags found (x.y.z). Nothing to do."],
        mk_repo ["1.0.0-dev.1"] ["1.0.0-dev.1"], Ret tt).
Proof.
  split; [|split; [|split]]; try reflexivity.
  - split; [now left|]. exists 1%Z. reflexivity.
  - intros k [t [[<-|[]] H]]. vm_compute in H. discriminate.
Qed.

(** C1, amended: for every tag list with at least one official tag, the
    official keys sorted by [main] are the strictly ascending sequence of
    the official keys in the numeric order of tuples (the only such
    sequence; 1.10.0 comes after 1.9.0), the protected lineages are its last
    two entries, or all of them when there are fewer than two, and a tag is
    marked for deletion if and only if it is a dev tag of the list whose
    key is not protected. *)
Theorem pruner_marking (tags : list string) :
  (exists k, official_key tags k) ->
  exists sorted_official tags_to_delete,
    plan_of tags
    = Val (Delete sorted_official (protected_of sorted_official) tags_to_delete)
    /\ StronglySorted key_lt sorted_official
    /\ (forall k, In k sorted_official <-> official_key tags k)
    /\ (forall ascending,
          StronglySorted key_lt ascending ->
          (forall k, In k ascending <-> official_key tags k) ->
          ascending = sorted_official)
    /\ (forall t,
          In t tags_to_delete
          <-> exists k, dev_tag_of tags t k
                        /\ ~ In k (protected_of sorted_official))
    /\ key_lt (1, 9, 0)%Z (1, 10, 0)%Z.
Proof.
  intros [k0 Hk0].
  destruct (plan_of_cases tags)
    as [[-> _]|[(_ & N & _)|(so & del & P & _ & Hs & Ho & Hd)]].
  - destruct Hk0 as [t [[] _]].
  - elim (N k0 Hk0).
  - exists so, del. rewrite latest_two_protected in *.
    split; [exact P|]. split; [exact Hs|]. split; [exact Ho|].
    split; [|split; [exact Hd|]].
    + intros s Hs' Ho'. apply strictly_sorted_unique; try assumption.
      intros x. now rewrite Ho, Ho'.
    + unfold key_lt. lia.
Qed.

(** ** The pruner as a whole *)

Section PrunerFacts.

Variable World : Type.
Variable git : World -> list string -> World * completed.

Lemma for_each_print {A} (f : A -> string) (l : list A) (w : World) :
  for_each l (fun x => print (f x)) w = (map (fun x => EPrint (f x)) l, w, Ret tt).
Proof.
  induction l as [|x l IH]; simpl; [reflexivity|].
  unfold bind, print at 1. now rewrite IH.
Qed.

Lemma bind_print {B} (line : string) (k : unit -> M World B) (w : World) :
  bind (print line) k w
  = match k tt w with (t, w', o) => (EPrint line :: t, w', o) end.
Proof. unfold bind, print. now destruct (k tt w) as [[t w'] o]. Qed.

Lemma bind_for_each_print {A B} (f : A -> string) (l : list A)
    (k : unit -> M World B) (w : World) :
  bind (for_each l (fun x => print (f x))) k w
  = match k tt w with
    | (t, w', o) => ((map (fun x => EPrint (f x)) l ++ t)%list, w', o)
    end.
Proof.
  unfold bind. rewrite for_each_print. now destruct (k tt w) as [[t w'] o].
Qed.

(** One call of [run_git]. *)
Lemma run_git_run (args : list string) (w w1 : World) (r : completed) :
  git w args = (w1, r) ->
  run_git World git args w =
  if (returncode r =? 0)%Z then ([EGit args r], w1, Ret (strip (stdout r)))
  else ([EGit args r;
         EPrintErr ("git " ++ join " " args ++ " failed:" ++ nl ++ stderr r)],
        w1, Exit (returncode r)).
Proof.
  intros E. unfold run_git, bind, subprocess_run. rewrite E.
  destruct (returncode r =? 0)%Z; reflexivity.
Qed.

(** The run of [main], case by case. *)
Lemma main_run (dry_run : bool) (w w1 : World) (r : completed) :
  git w ["tag"; "--list"] = (w1, r) ->
  main World git dry_run w =
  if negb (returncode r =? 0)%Z then
    ([EGit ["tag"; "--list"] r;
      EPrintErr ("git " ++ join " " ["tag"; "--list"] ++ " failed:" ++ nl
                 ++ stderr r)],
     w1, Exit (returncode r))
  else
    match plan_of (tags_of (strip (stdout r))) with
    | Exn e => ([EGit ["tag"; "--list"] r], w1, Raise e)
    | Val NoTags =>
        ([EGit ["tag"; "--list"] r; EPrint "No tags found."], w1, Ret tt)
    | Val NoOfficial =>
        ([EGit ["tag"; "--list"] r;
          EPrint "No official release tags found (x.y.z). Nothing to do."],
         w1, Ret tt)
    | Val (Delete sorted_official latest_two tags_to_delete) =>
        let report :=
          (EGit ["tag"; "--list"] r :: report_of sorted_official latest_two)%list in
        match tags_to_delete with
        | [] =>
            ((report ++ [EPrint (nl ++ "No dev tags need to be deleted.")])%list,
             w1, Ret tt)
        | _ :: _ =>
            if dry_run then
              ((report ++ deletion_report_of tags_to_delete
                ++ [EPrint (nl ++ "Dry-run mode: no tags have been deleted.")])%list,
               w1, Ret tt)
            else
              match delete_tags World git tags_to_delete w1 with
              | (t, w2, Ret _) =>
                  ((report ++ deletion_report_of tags_to_delete ++ t
                    ++ [EPrint (nl ++ "Done. Deleted dev tags outside the two latest official releases (local and origin).")])%list,
                   w2, Ret tt)
              | (t, w2, Exit c) =>
                  ((report ++ deletion_report_of tags_to_delete ++ t)%list,
                   w2, Exit c)
              | (t, w2, Raise e) =>
                  ((report ++ deletion_report_of tags_to_delete ++ t)%list,
                   w2, Raise e)
              end
        end
    end.
Proof.
  intros E. unfold main. unfold bind at 1. rewrite (run_git_run _ _ _ _ E).
  destruct (returncode r =? 0)%Z; [|reflexivity]. simpl negb. cbv iota.
  unfold plan_of.
  destruct (tags_of (strip (stdout r))) as [|tag tags]; [reflexivity|].
  unfold bind at 1, eval.
  destruct (categorise (tag :: tags) (mk_buckets [] [])) as [b|e];
    [|reflexivity].
  simpl py_bind. destruct (official_versions b) as [|k ks]; [reflexivity|].
  set (so := sorted_official_of (k :: ks)).
  set (l2 := latest_two_of so).
  cbv zeta.
  set (del := tags_to_delete_of l2 (dev_tags_by_version b)).
  cbv beta. rewrite bind_print, bind_for_each_print, bind_print,
    bind_for_each_print.
  unfold report_of, deletion_report_of.
  destruct del as [|t0 del].
  - unfold print. simpl. rewrite <- app_assoc. reflexivity.
  - rewrite bind_print, bind_for_each_print.
    destruct dry_run.
    + unfold print. simpl. rewrite <- !app_assoc. reflexivity.
    + unfold bind, print.
      destruct (delete_tags World git (t0 :: del) w1) as [[t w2] [[]|c|e]];
        simpl; rewrite <- !app_assoc; simpl; rewrite ?app_nil_r; reflexivity.
Qed.

(** Events other than subprocesses are no calls. *)
Lemma git_calls_app (t1 t2 : list event) :
  git_calls (t1 ++ t2) = (git_calls t1 ++ git_calls t2)%list.
Proof. unfold git_calls. apply flat_map_app. Qed.

Lemma git_calls_prints {A} (f : A -> string) (l : list A) :
  git_calls (map (fun x => EPrint (f x)) l) = [].
Proof. induction l as [|x l IH]; [reflexivity | exact IH]. Qed.

Lemma git_calls_report (so l2 : list ver_key) : git_calls (report_of so l2) = [].
Proof.
  unfold report_of. simpl. rewrite git_calls_app, git_calls_prints. simpl.
  apply git_calls_prints.
Qed.

Lemma git_calls_deletion_report (del : list string) :
  git_calls (deletion_report_of del) = [].
Proof. unfold deletion_report_of. simpl. apply git_calls_prints. Qed.

(** The loop of step 5 is the fail-fast execution of the deletion
    commands: same calls, same final repository, same end. *)
Lemma delete_tags_run (del : list string) (w : World) :
  exists t,
    delete_tags World git del w
    = (t, snd (fst (run_until_failure World git w (deletions_of del))),
       match snd (run_until_failure World git w (deletions_of del)) with
       | None => Ret tt
       | Some c => Exit c
       end)
    /\ git_calls t = fst (fst (run_until_failure World git w (deletions_of del))).
Proof.
  revert w. induction del as [|x del IH]; intros w.
  - exists []. now split.
  - unfold delete_tags in *.
    set (body := fun t : string =>
                   bind (print ("Deleting tag: " ++ t))
                     (fun _ : unit =>
                        bind (run_git World git ["tag"; "-d"; t])
                          (fun _ : string =>
                             bind (run_git World git ["push"; "--delete"; "origin"; t])
                               (fun _ : string => ret tt)))) in *.
    change (for_each (x :: del) body)
      with (bind (body x) (fun _ : unit => for_each del body)).
    change (deletions_of (x :: del))
      with (["tag"; "-d"; x] :: ["push"; "--delete"; "origin"; x]
            :: deletions_of del).
    cbn [run_until_failure].
    unfold bind at 1. unfold body at 1. rewrite bind_print.
    unfold bind at 1.
    destruct (git w ["tag"; "-d"; x]) as [w1 r1] eqn:E1.
    rewrite (run_git_run _ _ _ _ E1).
    destruct (returncode r1 =? 0)%Z.
    + unfold bind at 1.
      destruct (git w1 ["push"; "--delete"; "origin"; x]) as [w2 r2] eqn:E2.
      rewrite (run_git_run _ _ _ _ E2).
      destruct (returncode r2 =? 0)%Z.
      * unfold ret at 1. destruct (IH w2) as [t [Ht Hc]].
        rewrite Ht.
        destruct (run_until_failure World git w2 (deletions_of del))
          as [[calls w3] failed].
        cbn [fst snd] in *. eexists. split; [reflexivity|].
        cbn [app]. unfold git_calls in *. cbn [flat_map app].
        now rewrite Hc.
      * eexists. split; reflexivity.
    + eexists. split; reflexivity.
Qed.

(** What fail-fast execution means: the commands run are an initial part
    of the list, all of them succeed except possibly the last, and the
    status is that of the one that fails. *)
Lemma run_until_failure_spec (cmds : list (list string)) (w : World) :
  let '(calls, _, failed) := run_until_failure World git w cmds in
  exists rest,
    cmds = (map fst calls ++ rest)%list
    /\ match failed with
       | None =>
           rest = [] /\ forall c r, In (c, r) calls -> returncode r = 0%Z
       | Some status =>
           status <> 0%Z
           /\ exists done c r,
                calls = (done ++ [(c, r)])%list
                /\ returncode r = status
                /\ forall c' r', In (c', r') done -> returncode r' = 0%Z
       end.
Proof.
  revert w. induction cmds as [|c cmds IH]; intros w; simpl.
  - exists []. split; [reflexivity|]. split; [reflexivity | intros ? ? []].
  - destruct (git w c) as [w1 r] eqn:E.
    destruct (Z.eqb_spec (returncode r) 0) as [Hr|Hr].
    + specialize (IH w1).
      destruct (run_until_failure World git w1 cmds) as [[calls w2] failed].
      destruct IH as [rest [Hc Hf]]. exists rest. simpl.
      split; [now rewrite Hc at 1|].
      destruct failed as [status|].
      * destruct Hf as [Hs (done & c' & r' & -> & Hr' & Hd)].
        split; [exact Hs|]. exists ((c, r) :: done), c', r'.
        split; [reflexivity|]. split; [exact Hr'|].
        intros c0 r0 [[= <- <-]|H]; [exact Hr | now apply (Hd c0)].
      * destruct Hf as [-> Hd]. split; [reflexivity|].
        intros c0 r0 [[= <- <-]|H]; [exact Hr | now apply (Hd c0)].
    + exists cmds. split; [reflexivity|]. split; [exact Hr|].
      exists [], c, r. split; [reflexivity|]. split; [reflexivity|].
      intros ? ? [].
Qed.

Lemma tags_of_lines (raw t : string) :
  In t (tags_of raw) -> In t (splitlines raw).
Proof. unfold tags_of. intros H. now apply filter_In in H. Qed.

Lemma tags_of_one_line (raw t : string) : In t (tags_of raw) -> one_line t.
Proof. intros H. now apply (splitlines_one_line raw), tags_of_lines. Qed.

Lemma tag_grammar_official (t : string) (k : ver_key) :
  tag_grammar t (k, None) -> official_form t.
Proof. intros H. inversion H. now exists a, b, c. Qed.

Lemma tag_grammar_dev (t : string) (k : ver_key) (n : Z) :
  tag_grammar t (k, Some n) -> dev_form t.
Proof. intros H. inversion H. now exists a, b, c, n0. Qed.

Lemma official_key_form (raw : string) (k : ver_key) :
  official_key (tags_of raw) k ->
  exists t, In t (tags_of raw) /\ official_form t.
Proof.
  intros [t [Ht P]]. exists t. split; [exact Ht|].
  apply (tag_grammar_official t k), parse_tag_one_line; [|exact P].
  now apply (tags_of_one_line raw).
Qed.

Lemma dev_tag_of_form (raw t : string) (k : ver_key) :
  dev_tag_of (tags_of raw) t k -> dev_form t /\ ~ official_form t.
Proof.
  intros [Ht [n P]]. split.
  - apply (tag_grammar_dev t k n), parse_tag_one_line; [|exact P].
    now apply (tags_of_one_line raw).
  - intros (a & b & c & Ha & Hb & Hc & ->).
    rewrite <- (append_nil_r (official_text a b c)) in P.
    rewrite parse_tag_official in P by auto. discriminate.
Qed.

Lemma plan_of_total (tags : list string) : exists p, plan_of tags = Val p.
Proof.
  destruct (plan_of_cases tags)
    as [[_ H]|[(_ & _ & H)|(so & del & H & _)]]; eauto.
Qed.

Lemma report_of_prints (so l2 : list ver_key) :
  exists lines, report_of so l2 = map EPrint lines.
Proof.
  exists ("Official releases found (sorted):"
          :: map show_key so
          ++ (nl ++ "Keeping dev tags ONLY for the following official releases:")%string
          :: map show_key l2)%list.
  unfold report_of. cbn [map]. f_equal.
  rewrite map_app. cbn [map]. now rewrite !map_map.
Qed.

Lemma deletion_report_of_prints (del : list string) :
  exists lines, deletion_report_of del = map EPrint lines.
Proof.
  exists ((nl ++ "Dev tags to delete:")
          :: map (fun t => "  " ++ t) (sorted_by String.ltb del)).
  unfold deletion_report_of. cbn [map]. f_equal. now rewrite map_map.
Qed.

(** C5: not in dry-run mode, the deletion commands [main] issues are the
    fail-fast execution of "tag -d T", "push --delete origin T" for the
    marked tags T in order: an initial part of that list, each command
    after the previous one has succeeded; when one exits non-zero [main]
    exits with that status and issues no further command (none that would
    undo a deletion either); when none fails all are issued and [main]
    ends normally. *)
Theorem pruner_fail_fast_deletion
    (w w1 : World) (r : completed)
    (sorted_official latest_two : list ver_key) (tags_to_delete : list string) :
  git w ["tag"; "--list"] = (w1, r) ->
  returncode r = 0%Z ->
  plan_of (tags_of (strip (stdout r)))
  = Val (Delete sorted_official latest_two tags_to_delete) ->
  exists t w2 st calls failed rest,
    main World git false w = (t, w2, st)
    /\ git_calls t = ((["tag"; "--list"], r) :: calls)%list
    /\ run_until_failure World git w1 (deletions_of tags_to_delete)
       = (calls, w2, failed)
    /\ deletions_of tags_to_delete = (map fst calls ++ rest)%list
    /\ match failed with
       | None =>
           st = Ret tt /\ rest = []
           /\ forall c r', In (c, r') calls -> returncode r' = 0%Z
       | Some status =>
           st = Exit status /\ status <> 0%Z
           /\ exists done c r',
                calls = (done ++ [(c, r')])%list
                /\ returncode r' = status
                /\ forall c' r'', In (c', r'') done -> returncode r'' = 0%Z
       end.
Proof.
  intros E Hr P. rewrite (main_run false w w1 r E), Hr, P.
  change (negb (0 =? 0)%Z) with false. cbv beta iota zeta.
  pose proof (run_until_failure_spec (deletions_of tags_to_delete) w1) as S.
  destruct tags_to_delete as [|t0 del].
  - exists ((EGit ["tag"; "--list"] r :: report_of sorted_official latest_two)
            ++ [EPrint (nl ++ "No dev tags need to be deleted.")%string])%list,
      w1, (Ret tt), [], None, [].
    split; [reflexivity|]. split.
    + cbn [app]. unfold git_calls at 1. cbn [flat_map app].
      fold (git_calls (report_of sorted_official latest_two
                       ++ [EPrint (nl ++ "No dev tags need to be deleted.")%string])%list).
      now rewrite git_calls_app, git_calls_report.
    + repeat split. intros ? ? [].
  - destruct (delete_tags_run (t0 :: del) w1) as [t [Ht Hc]].
    rewrite Ht.
    destruct (run_until_failure World git w1 (deletions_of (t0 :: del)))
      as [[calls w2] failed].
    cbn [fst snd] in *. destruct S as [rest [Hd Hf]].
    destruct failed as [status|].
    + eexists _, w2, (Exit status), calls, (Some status), rest.
      split; [reflexivity|]. split; [|split; [reflexivity|split; [exact Hd|]]].
      * cbn [app]. unfold git_calls at 1. cbn [flat_map app].
        fold (git_calls (report_of sorted_official latest_two
                         ++ deletion_report_of (t0 :: del) ++ t)%list).
        now rewrite !git_calls_app, git_calls_report,
          git_calls_deletion_report, Hc.
      * destruct Hf as [Hs Hx]. now repeat split.
    + eexists _, w2, (Ret tt), calls, None, rest.
      split; [reflexivity|]. split; [|split; [reflexivity|split; [exact Hd|]]].
      * cbn [app]. unfold git_calls at 1. cbn [flat_map app].
        fold (git_calls (report_of sorted_official latest_two
                         ++ deletion_report_of (t0 :: del) ++ t
                         ++ [EPrint (nl ++ "Done. Deleted dev tags outside the two latest official releases (local and origin).")%string])%list).
        rewrite !git_calls_app, git_calls_report,
          git_calls_deletion_report, Hc. cbn. now rewrite app_nil_r.
      * destruct Hf as [-> Hx]. now repeat split.
Qed.

(** C6: in dry-run mode, whatever the listing returns, [main] runs no
    subprocess but the listing itself, leaves the repository as the
    listing left it, does nothing but print, and ends normally; when tags
    are marked, the last line says that none was deleted. *)
Theorem pruner_dry_run_deletes_nothing (w w1 : World) (r : completed) :
  git w ["tag"; "--list"] = (w1, r) ->
  returncode r = 0%Z ->
  exists lines,
    main World git true w
    = ((EGit ["tag"; "--list"] r :: map EPrint lines)%list, w1, Ret tt)
    /\ git_calls (EGit ["tag"; "--list"] r :: map EPrint lines)
       = [(["tag"; "--list"], r)]
    /\ (forall so l2 t0 del,
          plan_of (tags_of (strip (stdout r))) = Val (Delete so l2 (t0 :: del)) ->
          exists before,
            lines = (before
                     ++ [(nl ++ "Dry-run mode: no tags have been deleted.")%string])%list).
Proof.
  intros E Hr. rewrite (main_run true w w1 r E), Hr.
  change (negb (0 =? 0)%Z) with false. cbv beta iota zeta.
  assert (G : forall lines,
             git_calls (EGit ["tag"; "--list"] r :: map EPrint lines)
             = [(["tag"; "--list"], r)]).
  { intros lines. unfold git_calls. cbn [flat_map app]. f_equal.
    induction lines as [|x l IH]; [reflexivity | exact IH]. }
  destruct (plan_of_total (tags_of (strip (stdout r)))) as [[| |so l2 del] ->].
  - exists ["No tags found."]. split; [reflexivity|]. split; [apply G|].
    discriminate.
  - exists ["No official release tags found (x.y.z). Nothing to do."].
    split; [reflexivity|]. split; [apply G|]. discriminate.
  - destruct (report_of_prints so l2) as [l1 H1].
    destruct del as [|t0 del].
    + exists (l1 ++ [(nl ++ "No dev tags need to be deleted.")%string])%list.
      split; [|split; [apply G | discriminate]].
      cbn [app]. rewrite H1, map_app. reflexivity.
    + destruct (deletion_report_of_prints (t0 :: del)) as [l3 H3].
      exists (l1 ++ l3
              ++ [(nl ++ "Dry-run mode: no tags have been deleted.")%string])%list.
      split; [|split; [apply G|]].
      * cbn [app]. rewrite H1, H3, !map_app. reflexivity.
      * intros so' l2' t0' del' _. exists (l1 ++ l3)%list.
        now rewrite <- app_assoc.
Qed.

(** C7: when no tag of the listing is of the form MAJOR.MINOR.PATCH,
    [main], in either mode, runs no subprocess but the listing, prints one
    line and ends normally (exit status 0): "No official release tags found
    (x.y.z). Nothing to do." when the listing holds a tag, "No tags found."
    when it holds none. *)
Theorem pruner_nothing_to_do_without_official_tag
    (dry_run : bool) (w w1 : World) (r : completed) :
  git w ["tag"; "--list"] = (w1, r) ->
  returncode r = 0%Z ->
  (forall t, In t (tags_of (strip (stdout r))) -> ~ official_form t) ->
  exists msg,
    main World git dry_run w
    = ([EGit ["tag"; "--list"] r; EPrint msg], w1, Ret tt)
    /\ (tags_of (strip (stdout r)) = [] -> msg = "No tags found.")
    /\ (tags_of (strip (stdout r)) <> [] ->
        msg = "No official release tags found (x.y.z). Nothing to do.").
Proof.
  intros E Hr Hno. rewrite (main_run dry_run w w1 r E), Hr.
  change (negb (0 =? 0)%Z) with false. cbv beta iota zeta.
  destruct (plan_of_cases (tags_of (strip (stdout r))))
    as [[Ht ->]|[(Ht & _ & ->)|(so & del & _ & [k Hk] & _)]].
  - eexists. split; [reflexivity|]. split; [reflexivity | congruence].
  - eexists. split; [reflexivity|]. split; [congruence | reflexivity].
  - apply official_key_form in Hk as [t [Ht Hf]]. elim (Hno t Ht Hf).
Qed.

(** C10: every tag [main] marks for deletion is a tag of the listing that
    matches MAJOR.MINOR.PATCH-dev.N in full, hence no official release tag
    and no tag outside the grammar; and every subprocess [main] runs, in
    either mode, is the listing or one of the two deletion commands for
    such a dev tag. *)
Theorem pruner_deletes_only_dev_tags (dry_run : bool) (w : World) :
  (forall so l2 del,
     plan_of (tags_of (strip (stdout (snd (git w ["tag"; "--list"])))))
     = Val (Delete so l2 del) ->
     forall t, In t del ->
       dev_form t /\ ~ official_form t
       /\ In t (tags_of (strip (stdout (snd (git w ["tag"; "--list"]))))))
  /\ (forall args res,
        In (args, res) (git_calls (fst (fst (main World git dry_run w)))) ->
        args = ["tag"; "--list"]
        \/ exists t,
             dev_form t
             /\ (args = ["tag"; "-d"; t]
                 \/ args = ["push"; "--delete"; "origin"; t])).
Proof.
  destruct (git w ["tag"; "--list"]) as [w1 r] eqn:E. cbn [snd].
  assert (D : forall so l2 del,
             plan_of (tags_of (strip (stdout r))) = Val (Delete so l2 del) ->
             forall t, In t del ->
               dev_form t /\ ~ official_form t
               /\ In t (tags_of (strip (stdout r)))).
  { intros so l2 del P t Ht.
    destruct (plan_of_cases (tags_of (strip (stdout r))))
      as [[_ P']|[(_ & _ & P')|(so' & del' & P' & _ & _ & _ & Hd)]];
      try congruence.
    rewrite P in P'. injection P' as <- _ <-.
    apply Hd in Ht as [k [Hk _]].
    destruct (dev_tag_of_form _ _ _ Hk) as [H1 H2].
    repeat split; try assumption. apply Hk. }
  split; [exact D|].
  intros args res. rewrite (main_run dry_run w w1 r E).
  assert (L : forall pre : list event,
             git_calls pre = [] ->
             forall t,
               In (args, res)
                  (git_calls (EGit ["tag"; "--list"] r :: pre ++ t)%list) ->
               args = ["tag"; "--list"] \/ In (args, res) (git_calls t)).
  { intros pre Hp t. unfold git_calls at 1. cbn [flat_map app].
    fold (git_calls (pre ++ t)%list). rewrite git_calls_app, Hp.
    intros [[= <- <-]|H]; [now left | now right]. }
  destruct (negb (returncode r =? 0)%Z).
  { cbn. intros [[= <- <-]|[]]. now left. }
  destruct (plan_of (tags_of (strip (stdout r)))) as [[| |so l2 del]|e] eqn:P;
    try (cbn; intros [[= <- <-]|[]]; now left).
  cbv zeta.
  destruct del as [|t0 del].
  { cbn [fst app]. intros H.
    apply (L (report_of so l2) (git_calls_report so l2)) in H as [H|[]].
    now left. }
  destruct dry_run.
  { cbn [fst app]. intros H.
    apply (L (report_of so l2) (git_calls_report so l2)) in H as [H|H];
      [now left|].
    rewrite git_calls_app, git_calls_deletion_report in H. destruct H. }
  destruct (delete_tags_run (t0 :: del) w1) as [t [Ht Hc]].
  pose proof (run_until_failure_spec (deletions_of (t0 :: del)) w1) as S.
  rewrite Ht.
  destruct (run_until_failure World git w1 (deletions_of (t0 :: del)))
    as [[calls w2] failed].
  cbn [fst snd] in *. destruct S as [rest [Hd _]].
  assert (C : In (args, res) calls ->
              exists t, dev_form t
                        /\ (args = ["tag"; "-d"; t]
                            \/ args = ["push"; "--delete"; "origin"; t])).
  { intros H.
    assert (Ha : In args (deletions_of (t0 :: del))).
    { rewrite Hd. apply in_app_iff. left.
      apply in_map_iff. now exists (args, res). }
    unfold deletions_of in Ha. apply in_flat_map in Ha as [x [Hx Ha]].
    exists x. split; [apply (D so l2 (t0 :: del) eq_refl x Hx)|].
    destruct Ha as [<-|[<-|[]]]; [now left | now right]. }
  destruct failed as [status|]; cbn [fst app]; intros H;
    apply (L (report_of so l2) (git_calls_report so l2)) in H as [H|H];
    try (now left); right; apply C;
    rewrite !git_calls_app, git_calls_deletion_report, Hc in H;
    cbn in H; rewrite ?app_nil_r in H; exact H.
Qed.

End PrunerFacts.

(** ** The theorems at concrete repositories *)

Lemma official_form_parse (t : string) :
  official_form t -> exists k, parse_tag t = Val (Some (k, None)).
Proof.
  intros (a & b & c & Ha & Hb & Hc & ->).
  exists (value a, value b, value c).
  rewrite <- (append_nil_r (official_text a b c)).
  now apply parse_tag_official.
Qed.

Lemma number_digits (d : string) :
  d <> EmptyString -> all_chars is_digit d = true -> number d.
Proof. now split. Qed.

Lemma pruner_marking_example :
  official_key (local_tags example_repo) (1, 2, 0)%Z
  /\ exists so del,
       plan_of (local_tags example_repo) = Val (Delete so (protected_of so) del)
       /\ (forall t, In t del
                     <-> exists k, dev_tag_of (local_tags example_repo) t k
                                   /\ ~ In k (protected_of so)).
Proof.
  assert (H : official_key (local_tags example_repo) (1, 2, 0)%Z).
  { exists "1.2.0". split; [|reflexivity]. simpl. tauto. }
  split; [exact H|].
  destruct (pruner_marking (local_tags example_repo) (ex_intro _ _ H))
    as (so & del & P & _ & _ & _ & D & _).
  exists so, del. split; [exact P | exact D].
Defined.


Lemma pruner_fail_fast_example :
  fake_git diverged_repo ["tag"; "--list"]
  = (diverged_repo,
     mk_completed 0 (listing (local_tags diverged_repo)) EmptyString)
  /\ exists t w2,
       main repo fake_git false diverged_repo = (t, w2, Exit 1%Z)
       /\ map fst (git_calls t)
          = [["tag"; "--list"];
             ["tag"; "-d"; "1.0.0-dev.1"];
             ["push"; "--delete"; "origin"; "1.0.0-dev.1"];
             ["tag"; "-d"; "0.9.0-dev.3"];
             ["push"; "--delete"; "origin"; "0.9.0-dev.3"]]
       /\ local_tags w2 = ["1.0.0"; "1.1.0"; "1.2.0"].
Proof.
  split; [reflexivity|].
  destruct (pruner_fail_fast_deletion repo fake_git diverged_repo diverged_repo
              (mk_completed 0 (listing (local_tags diverged_repo)) EmptyString)
              [(1, 0, 0); (1, 1, 0); (1, 2, 0)]%Z [(1, 1, 0); (1, 2, 0)]%Z
              ["1.0.0-dev.1"; "0.9.0-dev.3"] eq_refl eq_refl eq_refl)
    as (t & w2 & st & calls & failed & rest & Hm & Hc & Hr & _ & Hf).
  vm_compute in Hr. injection Hr as <- <- <-.
  destruct Hf as [-> _].
  exists t, (mk_repo ["1.0.0"; "1.1.0"; "1.2.0"] []).
  split; [exact Hm|]. split; [|reflexivity].
  rewrite Hc. reflexivity.
Defined.

Lemma pruner_dry_run_example :
  fake_git example_repo ["tag"; "--list"]
  = (example_repo,
     mk_completed 0 (listing (local_tags example_repo)) EmptyString)
  /\ exists lines,
       main repo fake_git true example_repo
       = ((EGit ["tag"; "--list"]
             (mk_completed 0 (listing (local_tags example_repo)) EmptyString)
           :: map EPrint lines)%list,
          example_repo, Ret tt).
Proof.
  split; [reflexivity|].
  destruct (pruner_dry_run_deletes_nothing repo fake_git example_repo
              example_repo
              (mk_completed 0 (listing (local_tags example_repo)) EmptyString)
              eq_refl eq_refl)
    as (lines & Hm & _).
  exists lines. exact Hm.
Defined.

Lemma pruner_nothing_to_do_example :
  (forall t, In t (local_tags prerelease_repo) -> ~ official_form t)
  /\ main repo fake_git false prerelease_repo
     = ([EGit ["tag"; "--list"]
           (mk_completed 0 (listing (local_tags prerelease_repo)) EmptyString);
         EPrint "No official release tags found (x.y.z). Nothing to do."],
        prerelease_repo, Ret tt).
Proof.
  assert (H : forall t, In t (local_tags prerelease_repo) -> ~ official_form t).
  { intros t Ht F. apply official_form_parse in F as [k F].
    destruct Ht as [<-|[<-|[]]]; vm_compute in F; discriminate. }
  split; [exact H|].
  destruct (pruner_nothing_to_do_without_official_tag repo fake_git false
              prerelease_repo prerelease_repo
              (mk_completed 0 (listing (local_tags prerelease_repo)) EmptyString)
              eq_refl eq_refl H)
    as (msg & Hm & _ & Hmsg).
  rewrite Hm, Hmsg; [reflexivity | discriminate].
Defined.

Lemma resolver_fatal_example :
  (forall t, In t (local_tags prerelease_repo) -> ~ official_form t)
  /\ resolve repo fake_git fake_str_CalledProcessError (Some "github.env")
       prerelease_repo
     = ([EGit listing_cmd
           (mk_completed 0 (listing (local_tags prerelease_repo)) EmptyString);
         EPrint "Error: Latest official release tag (X.Y.Z) not found!"],
        prerelease_repo, Exit 1%Z).
Proof.
  assert (H : forall t, In t (local_tags prerelease_repo) -> ~ official_form t).
  { intros t Ht F. apply official_form_parse in F as [k F].
    destruct Ht as [<-|[<-|[]]]; vm_compute in F; discriminate. }
  split; [exact H|].
  destruct (resolver_fatal_without_official_tag repo fake_git
              fake_str_CalledProcessError (Some "github.env")
              prerelease_repo prerelease_repo
              (mk_completed 0 (listing (local_tags prerelease_repo)) EmptyString)
              eq_refl eq_refl H)
    as (msg & Hm & _ & Hmsg).
  rewrite Hm, Hmsg; [reflexivity | discriminate].
Defined.


(** * Further properties of the two scripts *)

(** ** Decimal numerals: [str] of a natural number is read back *)

Lemma string_of_uint_digits (u : Decimal.uint) :
  all_chars is_digit (NilEmpty.string_of_uint u) = true.
Proof. induction u; simpl; auto. Qed.

Lemma value_from_string_of_uint (u : Decimal.uint) (acc : N) :
  value_from acc (NilEmpty.string_of_uint u)
  = (DecimalPos.Unsigned.of_lu (Decimal.rev u)
     + acc * 10 ^ DecimalPos.Unsigned.usize u)%N.
Proof.
  revert acc. induction u; intros acc; simpl DecimalPos.Unsigned.usize;
    [simpl; lia | ..];
    cbn [NilEmpty.string_of_uint value_from]; rewrite IHu;
    unfold Decimal.rev; cbn [Decimal.revapp];
    rewrite (DecimalPos.Unsigned.of_lu_revapp u (_ Decimal.Nil));
    rewrite N.pow_succ_r'; unfold Decimal.rev;
    cbn [DecimalPos.Unsigned.of_lu]; unfold digit_val, code;
    cbn [N_of_ascii N_of_digits];
    try lia.
Qed.

Lemma py_str_number (z : Z) : (0 <= z)%Z -> number (py_str z).
Proof.
  intros Hz. unfold py_str, number. destruct z as [|p|p]; [now split | | lia].
  cbn [Z.to_int NilZero.string_of_int].
  pose proof (DecimalPos.Unsigned.to_uint_nonnil p) as Hn.
  unfold NilZero.string_of_uint.
  destruct (Pos.to_uint p) eqn:E; try congruence;
    (split; [discriminate | apply string_of_uint_digits]).
Qed.

Lemma value_py_str (z : Z) : (0 <= z)%Z -> value (py_str z) = z.
Proof.
  intros Hz. unfold py_str, value. destruct z as [|p|p]; [reflexivity | | lia].
  cbn [Z.to_int NilZero.string_of_int].
  pose proof (DecimalPos.Unsigned.to_uint_nonnil p) as Hn.
  assert (E : NilZero.string_of_uint (Pos.to_uint p)
              = NilEmpty.string_of_uint (Pos.to_uint p)).
  { unfold NilZero.string_of_uint. destruct (Pos.to_uint p); congruence. }
  rewrite E, value_from_string_of_uint.
  rewrite <- DecimalPos.Unsigned.of_uint_alt, DecimalPos.Unsigned.of_to.
  simpl. lia.
Qed.

Lemma value_nonneg (d : string) : (0 <= value d)%Z.
Proof. unfold value. lia. Qed.



(** ** What the scripts write is read back by [parse_tag] *)



Lemma parse_tag_key_values (t : string) (k : ver_key) (dev : option Z) :
  parse_tag t = Val (Some (k, dev)) ->
  exists a b c, number a /\ number b /\ number c /\ k = (value a, value b, value c).
Proof.
  intros P. destruct (parse_tag_cases t) as [(s0 & e & v & _ & _ & G & P') | [_ P']];
    rewrite P in P'; [|discriminate].
  injection P' as <-.
  inversion G as [a b c Ha Hb Hc | a b c n Ha Hb Hc Hn]; subst;
    now exists a, b, c.
Qed.

(** X2: the versions of the report are read back.  The line [main] prints
    for the key of a parsed tag is two blanks followed by an official tag
    that [parse_tag] reads as that very key, whatever leading zeros the tag
    it came from had. *)
Theorem reported_version_is_parsed_back (t : string) (k : ver_key) (dev : option Z) :
  parse_tag t = Val (Some (k, dev)) ->
  exists s,
    show_key k = "  " ++ s
    /\ official_form s
    /\ parse_tag s = Val (Some (k, None)).
Proof.
  intros P. destruct (parse_tag_key_values t k dev P) as (a & b & c & Ha & Hb & Hc & ->).
  pose proof (value_nonneg a) as Na. pose proof (value_nonneg b) as Nb.
  pose proof (value_nonneg c) as Nc.
  pose proof (py_str_number _ Na) as Ha'. pose proof (py_str_number _ Nb) as Hb'.
  pose proof (py_str_number _ Nc) as Hc'.
  exists (official_text (py_str (value a)) (py_str (value b)) (py_str (value c))).
  split; [reflexivity|]. split.
  - now exists (py_str (value a)), (py_str (value b)), (py_str (value c)).
  - rewrite (tag_grammar_parse _ _ (official_tag _ _ _ Ha' Hb' Hc')).
    now rewrite !value_py_str.
Qed.

Lemma reported_version_example :
  parse_tag "01.002.3-dev.4" = Val (Some ((1, 2, 3)%Z, Some 4%Z))
  /\ exists s,
       show_key (1, 2, 3)%Z = "  " ++ s
       /\ official_form s
       /\ parse_tag s = Val (Some ((1, 2, 3)%Z, None)).
Proof.
  split; [reflexivity|].
  exact (reported_version_is_parsed_back "01.002.3-dev.4" (1, 2, 3)%Z (Some 4%Z) eq_refl).
Defined.

(** ** The resolver: its subprocess, its files, its latest release *)

Lemma last_item_snoc {A} (l : list A) (x : A) : last_item (l ++ [x]) = Some x.
Proof. unfold last_item. now rewrite rev_app_distr. Qed.

Lemma last_item_filter {A} (p : A -> bool) (l : list A) (x : A) :
  last_item (filter p l) = Some x ->
  exists before after,
    l = (before ++ x :: after)%list /\ p x = true
    /\ forall y, In y after -> p y = false.
Proof.
  induction l as [|y l IH] using rev_ind; [discriminate|].
  rewrite filter_app. cbn [filter]. destruct (p y) eqn:Py.
  - rewrite last_item_snoc. intros [= <-].
    exists l, []. repeat split; [assumption | intros ? []].
  - rewrite List.app_nil_r. intros H.
    destruct (IH H) as (before & after & -> & Px & Hafter).
    exists before, (after ++ [y])%list. rewrite <- app_assoc. repeat split.
    + assumption.
    + intros z Hz. apply in_app_or in Hz as [Hz|[<-|[]]]; auto.
Qed.

Lemma filter_filter {A} (p q : A -> bool) (l : list A) :
  filter p (filter q l) = filter (fun x => q x && p x) l.
Proof.
  induction l as [|x l IH]; [reflexivity|]. cbn [filter].
  destruct (q x); cbn [filter andb]; [destruct (p x)|]; now rewrite IH.
Qed.

Lemma official_form_matches (t : string) :
  official_form t ->
  matches any_version_re t = true /\ matches official_re t = true.
Proof.
  intros O. split.
  - apply shared_grammar_any_version. now left.
  - destruct O as (a & b & c & Ha & Hb & Hc & ->). apply matches_official_re.
    exists a, b, c, EmptyString. now rewrite append_nil_r.
Qed.

Section ResolverRuns.

Variable World : Type.
Variable git : World -> list string -> World * completed.
Variable str_CalledProcessError : list string -> Z -> string.

(** X3: when [git tag --sort=v:refname] exits non-zero, the resolver
    writes "Error running git tag:" and the error to the error stream,
    prints nothing, appends nothing, and exits with status 1, not with the
    status of [git]. *)
Theorem resolver_listing_failure
    (GITHUB_ENV : option string) (w w1 : World) (r : completed) :
  git w listing_cmd = (w1, r) ->
  returncode r <> 0%Z ->
  resolve World git str_CalledProcessError GITHUB_ENV w
  = ([EGit listing_cmd r;
      EPrintErr ("Error running git tag: "
                 ++ str_CalledProcessError ["git"; "tag"; "--sort=v:refname"]
                      (returncode r))],
     w1, Exit 1%Z).
Proof.
  intros G F. rewrite (resolve_run _ _ _ _ _ _ _ G).
  destruct (Z.eqb_spec (returncode r) 0) as [E|_]; [contradiction | reflexivity].
Qed.


(** X5: the file GITHUB_ENV names.  A run that ends normally has printed
    NEXT_DEV_TAG=... and LATEST_RELEASE_TAG=... as its last two lines, and
    has appended to the file, when the variable is set and not empty, the
    same two values, LATEST_RELEASE_TAG first, each line ended by a line
    feed; otherwise nothing is appended.  A run that ends in any other way
    appends nothing. *)
Theorem resolver_env_file (GITHUB_ENV : option string) (w : World) :
  let '(t, _, st) := resolve World git str_CalledProcessError GITHUB_ENV w in
  match st with
  | Ret _ =>
      exists before latest next,
        printed t
        = (before ++ [("NEXT_DEV_TAG=" ++ next)%string;
                      ("LATEST_RELEASE_TAG=" ++ latest)%string])%list
        /\ appended t
           = match GITHUB_ENV with
             | Some path =>
                 if is_empty path then []
                 else [(path, "LATEST_RELEASE_TAG=" ++ latest ++ nl);
                       (path, "NEXT_DEV_TAG=" ++ next ++ nl)]
             | None => []
             end
  | _ => appended t = []
  end.
Proof.
  destruct (git w listing_cmd) as [w1 r] eqn:G.
  rewrite (resolve_run _ _ _ _ _ _ _ G).
  destruct (negb (returncode r =? 0)%Z); [reflexivity|].
  cbv zeta.
  destruct (last_item (version_tags_of (stdout r))) as [L|]; [|reflexivity].
  destruct (last_item (official_tags_of (version_tags_of (stdout r)))) as [Lo|];
    [|reflexivity].
  destruct (next_dev_tag_of (latest_tag_of Lo L)) as [[inc next]|e]; [|reflexivity].
  exists [("Latest release tag: " ++ latest_tag_of Lo L)%string;
          ((if inc then "Computed next dev tag (incrementing dev number): "
            else "Computed next dev tag: ") ++ next)%string], Lo, next.
  destruct GITHUB_ENV as [p|]; [destruct p|]; split; reflexivity.
Qed.

(** X6: on a normal end the LATEST_RELEASE_TAG printed is an official tag
    MAJOR.MINOR.PATCH of the listing, and the last such line of it. *)
Theorem resolver_latest_release_tag
    (GITHUB_ENV : option string) (w w1 : World) (t : list event) :
  resolve World git str_CalledProcessError GITHUB_ENV w = (t, w1, Ret tt) ->
  exists before latest after,
    splitlines (strip (stdout (snd (git w listing_cmd))))
    = (before ++ latest :: after)%list
    /\ official_form latest
    /\ (forall t', In t' after -> ~ official_form t')
    /\ In (EPrint ("LATEST_RELEASE_TAG=" ++ latest)) t.
Proof.
  destruct (git w listing_cmd) as [w' r] eqn:G.
  rewrite (resolve_run _ _ _ _ _ _ _ G). cbn [snd].
  destruct (negb (returncode r =? 0)%Z); [discriminate|].
  cbv zeta.
  destruct (last_item (version_tags_of (stdout r))) as [L|]; [|discriminate].
  destruct (last_item (official_tags_of (version_tags_of (stdout r)))) as [Lo|] eqn:O;
    [|discriminate].
  destruct (next_dev_tag_of (latest_tag_of Lo L)) as [[inc next]|e]; [|discriminate].
  intros [= <- _].
  unfold official_tags_of, version_tags_of in O. rewrite filter_filter in O.
  apply last_item_filter in O as (before & after & E & P & Hafter).
  apply andb_prop in P as [_ P].
  exists before, Lo, after. split; [exact E|]. split; [|split].
  - apply official_line; [|exact P].
    apply (splitlines_one_line (strip (stdout r))). rewrite E.
    apply in_or_app. right. now left.
  - intros t' Ht' F. apply official_form_matches in F as [F1 F2].
    specialize (Hafter t' Ht'). rewrite F1, F2 in Hafter. discriminate.
  - do 4 apply in_cons. apply in_eq.
Qed.

End ResolverRuns.

Lemma resolver_listing_failure_example :
  (no_repository_git tt listing_cmd
   = (tt, mk_completed 128 EmptyString
            ("fatal: not a git repository (or any of the parent directories): .git" ++ nl))
   /\ 128%Z <> 0%Z)
  /\ resolve unit no_repository_git fake_str_CalledProcessError (Some "/tmp/env") tt
     = ([EGit listing_cmd
           (mk_completed 128 EmptyString
              ("fatal: not a git repository (or any of the parent directories): .git" ++ nl));
         EPrintErr "Error running git tag: Command git tag --sort=v:refname returned non-zero exit status 128."],
        tt, Exit 1%Z).
Proof.
  assert (N : 128%Z <> 0%Z) by discriminate.
  split; [split; [reflexivity | exact N]|].
  exact (resolver_listing_failure unit no_repository_git fake_str_CalledProcessError
           (Some "/tmp/env") tt tt
           (mk_completed 128 EmptyString
              ("fatal: not a git repository (or any of the parent directories): .git" ++ nl))
           eq_refl N).
Defined.

Lemma resolver_latest_release_tag_example :
  resolve repo fake_git fake_str_CalledProcessError None dev_ahead_repo
  = ([EGit listing_cmd
        (mk_completed 0 (listing (local_tags dev_ahead_repo)) EmptyString);
      EPrint "Latest release tag: 1.2.4-dev.2";
      EPrint "Computed next dev tag (incrementing dev number): 1.2.4-dev.3";
      EPrint "NEXT_DEV_TAG=1.2.4-dev.3";
      EPrint "LATEST_RELEASE_TAG=1.2.3"], dev_ahead_repo, Ret tt)
  /\ exists before latest after,
       splitlines (strip (stdout (snd (fake_git dev_ahead_repo listing_cmd))))
       = (before ++ latest :: after)%list
       /\ official_form latest
       /\ (forall t', In t' after -> ~ official_form t')
       /\ In (EPrint ("LATEST_RELEASE_TAG=" ++ latest))
             [EGit listing_cmd
                (mk_completed 0 (listing (local_tags dev_ahead_repo)) EmptyString);
              EPrint "Latest release tag: 1.2.4-dev.2";
              EPrint "Computed next dev tag (incrementing dev number): 1.2.4-dev.3";
              EPrint "NEXT_DEV_TAG=1.2.4-dev.3";
              EPrint "LATEST_RELEASE_TAG=1.2.3"].
Proof.
  assert (R : resolve repo fake_git fake_str_CalledProcessError None dev_ahead_repo
  = ([EGit listing_cmd
        (mk_completed 0 (listing (local_tags dev_ahead_repo)) EmptyString);
      EPrint "Latest release tag: 1.2.4-dev.2";
      EPrint "Computed next dev tag (incrementing dev number): 1.2.4-dev.3";
      EPrint "NEXT_DEV_TAG=1.2.4-dev.3";
      EPrint "LATEST_RELEASE_TAG=1.2.3"], dev_ahead_repo, Ret tt))
    by (vm_compute; reflexivity).
  split; [exact R|].
  exact (resolver_latest_release_tag repo fake_git fake_str_CalledProcessError
           None dev_ahead_repo _ _ R).
Defined.

(** ** The resolver on tags outside the grammar

    [int] on what is not a number, [split] on longer strings. *)

Lemma lstrip_by_stop (p : ascii -> bool) (u : string) (x : ascii) (v : string) :
  p x = false ->
  lstrip_by p (u ++ String x v) = lstrip_by p u ++ String x v.
Proof.
  intros Px. induction u as [|c u IH]; cbn [append lstrip_by].
  - now rewrite Px.
  - destruct (p c); [exact IH | reflexivity].
Qed.

Lemma strip_by_keeps (p : ascii -> bool) (d : string) (x : ascii) (y : string) :
  d <> EmptyString -> all_chars (fun c => negb (p c)) d = true -> p x = false ->
  exists y', strip_by p (d ++ String x y) = d ++ String x y'.
Proof.
  intros Nd Hd Px. unfold strip_by.
  assert (E : lstrip_by p (d ++ String x y) = d ++ String x y).
  { destruct d as [|c d]; [now elim Nd|]. cbn [append lstrip_by].
    cbn [all_chars] in Hd. apply andb_true_iff in Hd as [Hc _].
    apply negb_true_iff in Hc. now rewrite Hc. }
  rewrite E, reverse_app, reverse_cons, append_assoc. cbn [append].
  rewrite lstrip_by_stop by assumption.
  exists (reverse (lstrip_by p (reverse y))).
  rewrite reverse_app, reverse_cons, reverse_involutive.
  now rewrite append_assoc.
Qed.

Lemma int_body_stop (d : string) (x : ascii) (y : string) (acc : N) :
  all_chars is_digit d = true -> is_digit x = false -> x <> "_"%char ->
  int_body acc false (d ++ String x y) = None.
Proof.
  intros Hd Hx Ux. revert acc. induction d as [|c d IH]; intros acc; cbn [append int_body].
  - rewrite Hx. destruct (Ascii.eqb_spec x "_"); [contradiction | reflexivity].
  - cbn [all_chars] in Hd. apply andb_true_iff in Hd as [Hc Hd].
    rewrite Hc. now apply IH.
Qed.

(** [int] rejects digits followed by a character that is neither a digit,
    an underscore nor white space, whatever comes after it. *)

Lemma py_int_trailing (d : string) (x : ascii) (y : string) :
  number d -> is_digit x = false -> x <> "_"%char -> is_int_space x = false ->
  py_int (d ++ String x y) = Exn ValueError.
Proof.
  intros [N H] Hx Ux Sx. unfold py_int.
  destruct (strip_by_keeps is_int_space d x y N) as [y' ->];
    [eapply all_chars_impl; [apply digit_not_int_space | exact H] | exact Sx |].
  destruct d as [|c d]; [now elim N|]. cbn [all_chars] in H.
  apply andb_true_iff in H as [Hc Hd]. cbn [append].
  destruct (Ascii.eqb c "+") eqn:E1;
    [apply Ascii.eqb_eq in E1; subst c; discriminate|].
  destruct (Ascii.eqb c "-") eqn:E2;
    [apply Ascii.eqb_eq in E2; subst c; discriminate|].
  unfold int_literal. rewrite Hc, (int_body_stop d x y' _ Hd Hx Ux).
  reflexivity.
Qed.

(** The first item of [split] is the text up to the first separator. *)

Lemma split_on_head (sep : ascii) (s cur : string) :
  exists p tl, split_on sep cur s = (reverse cur ++ p) :: tl.
Proof.
  revert cur. induction s as [|c s IH]; intros cur; cbn [split_on].
  - exists EmptyString, []. now rewrite append_nil_r.
  - destruct (Ascii.eqb c sep).
    + exists EmptyString, (split_on sep EmptyString s). now rewrite append_nil_r.
    + destruct (IH (String c cur)) as (p & tl & ->).
      exists (String c p), tl. now rewrite reverse_cons, append_assoc.
Qed.

(** The first three items of [split('.')] on MAJOR.MINOR.PATCH followed by
    a further dot, or by another character that is no digit. *)

Lemma split_version_third (a b c rest : string) :
  number a -> number b -> number c ->
  firstn 3 (split "." (official_text a b c ++ rest))
  = a :: b :: firstn 1 (split_on "." (rev_str EmptyString c) rest).
Proof.
  intros Ha Hb Hc. unfold split. rewrite official_text_app.
  rewrite split_on_run by now apply number_no_dot. cbn [split_on].
  rewrite Ascii.eqb_refl, rev_str_app, append_nil_r, reverse_involutive.
  rewrite split_on_run by now apply number_no_dot. cbn [split_on].
  rewrite Ascii.eqb_refl, rev_str_app, append_nil_r, reverse_involutive.
  now rewrite split_on_run by now apply number_no_dot.
Qed.

Lemma split_version_dot (a b c rest : string) :
  number a -> number b -> number c ->
  firstn 3 (split "." (official_text a b c ++ String "." rest)) = [a; b; c].
Proof.
  intros Ha Hb Hc. rewrite split_version_third by assumption.
  cbn [split_on]. rewrite Ascii.eqb_refl. cbn [firstn].
  now rewrite rev_str_app, append_nil_r, reverse_involutive.
Qed.

Lemma split_version_other (a b c : string) (x : ascii) (rest : string) :
  number a -> number b -> number c -> x <> "."%char ->
  exists p,
    firstn 3 (split "." (official_text a b c ++ String x rest))
    = [a; b; (c ++ String x p)%string].
Proof.
  intros Ha Hb Hc Hx. rewrite split_version_third by assumption.
  cbn [split_on]. destruct (Ascii.eqb_spec x "."); [contradiction|].
  destruct (split_on_head "." rest (String x (rev_str EmptyString c)))
    as (p & tl & ->).
  exists p. cbn [firstn].
  now rewrite reverse_cons, rev_str_app, append_nil_r, reverse_involutive,
    append_assoc.
Qed.

(** [dev_re] does not match MAJOR.MINOR.PATCH followed by a dot. *)

Lemma re_match_dev_re_dot (a b c rest : string) :
  number a -> number b -> number c ->
  re_match dev_re (official_text a b c ++ String "." rest) = None.
Proof.
  intros Ha Hb Hc. apply re_match_none. intros m Hm.
  destruct (dev_re_inv _ _ Hm)
    as (a' & b' & c' & n & e & E & _ & Ha' & Hb' & Hc' & _ & _).
  rewrite official_text_app, dev_text_app in E.
  apply tag_cut_unique in E as (_ & _ & _ & E); try assumption;
    [discriminate | reflexivity | reflexivity].
Qed.

(** [dev_re] matches a line only if it is a dev tag. *)

Lemma re_match_dev_re_line (s : string) :
  one_line s -> ~ dev_form s -> re_match dev_re s = None.
Proof.
  intros L N. apply re_match_none. intros m Hm.
  destruct (dev_re_inv _ _ Hm)
    as (a & b & c & n & e & E & _ & Ha & Hb & Hc & Hn & He).
  subst s. rewrite (one_line_at_eol _ _ L He), append_nil_r in N.
  apply N. now exists a, b, c, n.
Qed.

Lemma next_dev_tag_of_other_suffix
    (a b c : string) (x : ascii) (rest : string) :
  number a -> number b -> number c ->
  is_digit x = false -> x <> "."%char -> x <> "_"%char -> is_int_space x = false ->
  one_line rest ->
  ~ dev_form (official_text a b c ++ String x rest) ->
  next_dev_tag_of (official_text a b c ++ String x rest) = Exn ValueError.
Proof.
  intros Ha Hb Hc Dx Px Ux Sx L N. unfold next_dev_tag_of.
  rewrite re_match_dev_re_line.
  - destruct (split_version_other a b c x rest Ha Hb Hc Px) as [p ->].
    now rewrite py_int_trailing.
  - unfold official_text. rewrite !one_line_app. repeat split;
      try (now apply number_one_line); try reflexivity.
    change (String x rest) with (String x EmptyString ++ rest).
    apply one_line_app. split; [|exact L].
    unfold one_line. cbn [all_chars]. rewrite andb_true_r.
    apply negb_true_iff. apply Ascii.eqb_neq. intros ->. discriminate.
  - exact N.
Qed.

(** X7: a latest tag MAJOR.MINOR.PATCH followed by a dot and anything
    else is not a dev tag for [dev_re]; [split('.')[0:3]] keeps the first
    three components, so the next tag is MAJOR.MINOR.(PATCH+1)-dev.1 and
    what followed the third component is dropped. *)
Theorem resolver_drops_further_components (a b c rest : string) :
  number a -> number b -> number c ->
  next_dev_tag_of (official_text a b c ++ String "." rest)
  = Val (false, a ++ "." ++ b ++ "." ++ py_str (value c + 1) ++ "-dev.1").
Proof.
  intros Ha Hb Hc. unfold next_dev_tag_of.
  rewrite re_match_dev_re_dot, split_version_dot by assumption.
  now rewrite py_int_number.
Qed.

Lemma resolver_drops_further_components_example :
  (number "1" /\ number "2" /\ number "3")
  /\ next_dev_tag_of "1.2.3.4-dev.7" = Val (false, "1.2.4-dev.1").
Proof.
  assert (N : forall d, d = "1" \/ d = "2" \/ d = "3" -> number d)
    by (intros d [->|[->| ->]]; now split).
  split; [repeat split; discriminate|].
  exact (resolver_drops_further_components "1" "2" "3" "4-dev.7"
           (N "1" (or_introl eq_refl)) (N "2" (or_intror (or_introl eq_refl)))
           (N "3" (or_intror (or_intror eq_refl)))).
Defined.

Section ResolverEdges.

Variable World : Type.
Variable git : World -> list string -> World * completed.
Variable str_CalledProcessError : list string -> Z -> string.

(** X8: a latest tag MAJOR.MINOR.PATCH followed by a character other than
    a digit, a dot, an underscore or white space, that is no dev tag (such
    as 1.2.3-rc.1) and is not covered by the prefix correction, makes
    [int(patch)] raise [ValueError]: the resolver has printed only the
    "Latest release tag" line, and nothing catches the exception. *)
Theorem resolver_value_error_on_other_suffix
    (GITHUB_ENV : option string) (w w1 : World) (r : completed)
    (L_official a b c : string) (x : ascii) (rest : string) :
  git w listing_cmd = (w1, r) ->
  returncode r = 0%Z ->
  last_item (official_tags_of (version_tags_of (stdout r))) = Some L_official ->
  last_item (version_tags_of (stdout r))
  = Some (official_text a b c ++ String x rest) ->
  startswith (official_text a b c ++ String x rest) L_official = false ->
  number a -> number b -> number c ->
  is_digit x = false -> x <> "."%char -> x <> "_"%char -> is_int_space x = false ->
  ~ dev_form (official_text a b c ++ String x rest) ->
  resolve World git str_CalledProcessError GITHUB_ENV w
  = ([EGit listing_cmd r;
      EPrint ("Latest release tag: " ++ official_text a b c ++ String x rest)],
     w1, Raise ValueError).
Proof.
  intros G E O V S Ha Hb Hc Dx Px Ux Sx N.
  rewrite (resolve_run World git str_CalledProcessError GITHUB_ENV w w1 r G).
  rewrite E. change (negb (0 =? 0)%Z) with false. cbv beta iota zeta.
  rewrite V, O. unfold latest_tag_of. rewrite S.
  rewrite next_dev_tag_of_other_suffix; try assumption; [reflexivity|].
  apply last_item_In, version_tags_lines, splitlines_one_line in V.
  unfold official_text in V.
  change (String x rest) with (String x EmptyString ++ rest) in V.
  rewrite !one_line_app in V. tauto.
Qed.

(** X9: the prefix correction is textual.  Whenever the last version tag
    starts with the latest official tag, the resolver works from the
    official tag alone: it ends normally with MAJOR.MINOR.(PATCH+1)-dev.1
    of the official tag, whatever follows the prefix in the last tag. *)
Theorem resolver_prefix_correction
    (GITHUB_ENV : option string) (w w1 : World) (r : completed)
    (L_official L : string) :
  git w listing_cmd = (w1, r) ->
  returncode r = 0%Z ->
  last_item (official_tags_of (version_tags_of (stdout r))) = Some L_official ->
  last_item (version_tags_of (stdout r)) = Some L ->
  startswith L L_official = true ->
  exists a b c,
    L_official = official_text a b c
    /\ number a /\ number b /\ number c
    /\ let next := a ++ "." ++ b ++ "." ++ py_str (value c + 1) ++ "-dev.1" in
       resolve World git str_CalledProcessError GITHUB_ENV w
       = ((EGit listing_cmd r
           :: resolver_output false L_official L_official next
           ++ env_lines GITHUB_ENV L_official next)%list, w1, Ret tt).
Proof.
  intros G E O V S.
  assert (F : official_form L_official).
  { pose proof (last_item_In _ _ O) as H. unfold official_tags_of in H.
    apply filter_In in H as [H M].
    apply official_line; [|exact M].
    exact (splitlines_one_line _ _ (version_tags_lines _ _ H)). }
  destruct F as (a & b & c & Ha & Hb & Hc & ->).
  exists a, b, c. split; [reflexivity|]. do 3 (split; [assumption|]).
  rewrite (resolve_run World git str_CalledProcessError GITHUB_ENV w w1 r G).
  rewrite E. change (negb (0 =? 0)%Z) with false. cbv beta iota zeta.
  rewrite V, O. unfold latest_tag_of. rewrite S.
  now rewrite next_dev_tag_of_official.
Qed.

End ResolverEdges.

Lemma resolver_value_error_example :
  (last_item (official_tags_of (version_tags_of (listing (local_tags release_candidate_repo))))
   = Some "1.2.2"
   /\ last_item (version_tags_of (listing (local_tags release_candidate_repo)))
      = Some "1.2.3-rc.1"
   /\ startswith "1.2.3-rc.1" "1.2.2" = false
   /\ ~ dev_form "1.2.3-rc.1")
  /\ resolve repo fake_git fake_str_CalledProcessError None release_candidate_repo
     = ([EGit listing_cmd
           (mk_completed 0 (listing (local_tags release_candidate_repo)) EmptyString);
         EPrint "Latest release tag: 1.2.3-rc.1"],
        release_candidate_repo, Raise ValueError).
Proof.
  assert (N : ~ dev_form "1.2.3-rc.1").
  { intros D. apply (not_shared_grammar "1.2.3-rc.1"); [reflexivity | now right]. }
  assert (D : forall d, d = "1" \/ d = "2" \/ d = "3" -> number d)
    by (intros d [->|[->| ->]]; now split).
  split; [repeat split; [exact N]|].
  refine (resolver_value_error_on_other_suffix repo fake_git
            fake_str_CalledProcessError None release_candidate_repo
            release_candidate_repo
            (mk_completed 0 (listing (local_tags release_candidate_repo)) EmptyString)
            "1.2.2" "1" "2" "3" "-"%char "rc.1"
            eq_refl eq_refl eq_refl eq_refl eq_refl
            (D "1" (or_introl eq_refl)) (D "2" (or_intror (or_introl eq_refl)))
            (D "3" (or_intror (or_intror eq_refl)))
            eq_refl _ _ eq_refl N); discriminate.
Defined.

Lemma resolver_prefix_correction_example :
  (last_item (official_tags_of (version_tags_of (listing (local_tags long_patch_repo))))
   = Some "1.2.3"
   /\ last_item (version_tags_of (listing (local_tags long_patch_repo)))
      = Some "1.2.30-dev.5"
   /\ startswith "1.2.30-dev.5" "1.2.3" = true)
  /\ (exists a b c,
        "1.2.3" = official_text a b c
        /\ number a /\ number b /\ number c
        /\ let next := a ++ "." ++ b ++ "." ++ py_str (value c + 1) ++ "-dev.1" in
           resolve repo fake_git fake_str_CalledProcessError None long_patch_repo
           = ((EGit listing_cmd
                 (mk_completed 0 (listing (local_tags long_patch_repo)) EmptyString)
               :: resolver_output false "1.2.3" "1.2.3" next
               ++ env_lines None "1.2.3" next)%list, long_patch_repo, Ret tt))
  /\ resolve repo fake_git fake_str_CalledProcessError None long_patch_repo
     = ([EGit listing_cmd
           (mk_completed 0 (listing (local_tags long_patch_repo)) EmptyString);
         EPrint "Latest release tag: 1.2.3";
         EPrint "Computed next dev tag: 1.2.4-dev.1";
         EPrint "NEXT_DEV_TAG=1.2.4-dev.1";
         EPrint "LATEST_RELEASE_TAG=1.2.3"], long_patch_repo, Ret tt).
Proof.
  split; [repeat split|]. split; [|vm_compute; reflexivity].
  exact (resolver_prefix_correction repo fake_git fake_str_CalledProcessError None
           long_patch_repo long_patch_repo
           (mk_completed 0 (listing (local_tags long_patch_repo)) EmptyString)
           "1.2.3" "1.2.30-dev.5" eq_refl eq_refl eq_refl eq_refl eq_refl).
Defined.

(** ** The pruner: how a run ends *)

Section PrunerRuns.

Variable World : Type.
Variable git : World -> list string -> World * completed.

(** X10: when [git tag --list] exits non-zero, the pruner, dry run or
    not, writes "git tag --list failed:" and the error output of [git] to
    the error stream, prints nothing, runs no other command, and exits
    with the status of [git]. *)
Theorem pruner_listing_failure (dry_run : bool) (w w1 : World) (r : completed) :
  git w ["tag"; "--list"] = (w1, r) ->
  returncode r <> 0%Z ->
  main World git dry_run w
  = ([EGit ["tag"; "--list"] r;
      EPrintErr ("git tag --list failed:" ++ nl ++ stderr r)],
     w1, Exit (returncode r)).
Proof.
  intros G F. rewrite (main_run World git dry_run w w1 r G).
  destruct (Z.eqb_spec (returncode r) 0) as [E|_]; [contradiction | reflexivity].
Qed.

(** The subprocesses of a run of [main]: the listing, then the fail-fast
    execution of the commands it decided on, which are none unless the
    listing succeeded, tags are marked and the run is no dry run. *)



End PrunerRuns.

Lemma pruner_listing_failure_example :
  (no_repository_git tt ["tag"; "--list"]
   = (tt, mk_completed 128 EmptyString
            ("fatal: not a git repository (or any of the parent directories): .git" ++ nl))
   /\ 128%Z <> 0%Z)
  /\ main unit no_repository_git false tt
     = ([EGit ["tag"; "--list"]
           (mk_completed 128 EmptyString
              ("fatal: not a git repository (or any of the parent directories): .git" ++ nl));
         EPrintErr ("git tag --list failed:" ++ nl
                    ++ "fatal: not a git repository (or any of the parent directories): .git"
                    ++ nl)],
        tt, Exit 128%Z).
Proof.
  assert (N : 128%Z <> 0%Z) by discriminate.
  split; [split; [reflexivity | exact N]|].
  exact (pruner_listing_failure unit no_repository_git false tt tt
           (mk_completed 128 EmptyString
              ("fatal: not a git repository (or any of the parent directories): .git" ++ nl))
           eq_refl N).
Defined.

(** ** The pruner: what is marked *)

Lemma latest_two_of_In (so : list ver_key) (k : ver_key) :
  In k (latest_two_of so) -> In k so.
Proof.
  unfold latest_two_of, last_two. destruct (2 <=? List.length so)%nat; [|trivial].
  intros H. rewrite <- (firstn_skipn (List.length so - 2) so).
  apply in_or_app. now right.
Qed.

(** X12: once there is an official release, every dev tag of a version
    that was never released is marked, also when that version is newer
    than every release. *)
Theorem pruner_marks_unreleased_lineages
    (tags : list string) (so l2 : list ver_key) (del : list string)
    (t : string) (k : ver_key) :
  plan_of tags = Val (Delete so l2 del) ->
  dev_tag_of tags t k ->
  ~ official_key tags k ->
  In t del.
Proof.
  intros P D N.
  destruct (plan_of_cases tags)
    as [[_ P']|[(_ & _ & P')|(so' & del' & P' & _ & _ & Hso & Hdel)]];
    rewrite P in P'; try discriminate.
  injection P' as -> -> ->.
  apply Hdel. exists k. split; [exact D|].
  intros H. apply N, Hso. now apply latest_two_of_In.
Qed.

Lemma pruner_marks_unreleased_lineages_example :
  plan_of ["1.0.0"; "1.1.0"; "1.2.0-dev.1"]
  = Val (Delete [(1, 0, 0); (1, 1, 0)]%Z [(1, 0, 0); (1, 1, 0)]%Z ["1.2.0-dev.1"])
  /\ In "1.2.0-dev.1" ["1.2.0-dev.1"].
Proof.
  split; [reflexivity|].
  apply (pruner_marks_unreleased_lineages
           ["1.0.0"; "1.1.0"; "1.2.0-dev.1"] [(1, 0, 0); (1, 1, 0)]%Z
           [(1, 0, 0); (1, 1, 0)]%Z ["1.2.0-dev.1"] "1.2.0-dev.1" (1, 2, 0)%Z).
  - reflexivity.
  - split; [cbn; tauto | now exists 1%Z].
  - intros (t & [<-|[<-|[<-|[]]]] & P); discriminate P.
Defined.



Lemma remaining_tags_In (del tags : list string) (t : string) :
  In t (remaining_tags del tags) <-> In t tags /\ ~ In t del.
Proof.
  unfold remaining_tags. rewrite filter_In, negb_true_iff.
  split; intros [H1 H2]; (split; [exact H1|]).
  - intros H. assert (E : existsb (String.eqb t) del = true).
    { apply existsb_exists. exists t. split; [exact H | apply String.eqb_refl]. }
    congruence.
  - destruct (existsb (String.eqb t) del) eqn:E; [|reflexivity].
    apply existsb_exists in E as (x & Hx & E). apply String.eqb_eq in E. now subst.
Qed.

(** X14: the decision is stable.  On the tags that are left when the
    marked tags are gone, steps 2 to 4 find the same official releases,
    protect the same two, and mark nothing. *)
Theorem pruner_second_run_marks_nothing
    (tags : list string) (so l2 : list ver_key) (del : list string) :
  plan_of tags = Val (Delete so l2 del) ->
  plan_of (remaining_tags del tags) = Val (Delete so l2 []).
Proof.
  intros P.
  destruct (plan_of_cases tags)
    as [[_ P']|[(_ & _ & P')|(so0 & del0 & P' & [k0 K0] & S0 & Hso & Hdel)]];
    rewrite P in P'; try discriminate.
  injection P' as E1 E2 E3. subst so0 l2 del0.
  assert (O : forall k, official_key (remaining_tags del tags) k <-> official_key tags k).
  { intros k. split; intros (t & Ht & Pt); exists t; (split; [|exact Pt]).
    - now apply remaining_tags_In in Ht.
    - apply remaining_tags_In. split; [exact Ht|].
      intros D. apply Hdel in D as (k' & (_ & n & Pn) & _). congruence. }
  destruct (plan_of_cases (remaining_tags del tags))
    as [[E _]|[(_ & N & _)|(so' & del' & P' & _ & S' & Hso' & Hdel')]].
  - destruct K0 as (t & Ht & Pt).
    assert (H : In t (remaining_tags del tags)).
    { apply remaining_tags_In. split; [exact Ht|].
      intros D. apply Hdel in D as (k' & (_ & n & Pn) & _). congruence. }
    rewrite E in H. destruct H.
  - exfalso. apply (N k0), O. exact K0.
  - assert (E : so' = so).
    { apply strictly_sorted_unique; try assumption.
      intros k. now rewrite Hso', Hso, O. }
    subst so'. rewrite P'. f_equal. f_equal.
    destruct del' as [|t del']; [reflexivity|]. exfalso.
    destruct (proj1 (Hdel' t) (or_introl eq_refl)) as (k & (Ht & n & Pn) & Hk).
    apply remaining_tags_In in Ht as [Ht Nt]. apply Nt, Hdel.
    exists k. split; [|exact Hk]. split; [exact Ht | now exists n].
Qed.

Lemma pruner_second_run_example :
  plan_of (local_tags example_repo)
  = Val (Delete [(1, 0, 0); (1, 1, 0); (1, 2, 0)]%Z [(1, 1, 0); (1, 2, 0)]%Z
           ["1.0.0-dev.1"])
  /\ plan_of (remaining_tags ["1.0.0-dev.1"] (local_tags example_repo))
     = Val (Delete [(1, 0, 0); (1, 1, 0); (1, 2, 0)]%Z [(1, 1, 0); (1, 2, 0)]%Z []).
Proof.
  assert (P : plan_of (local_tags example_repo)
    = Val (Delete [(1, 0, 0); (1, 1, 0); (1, 2, 0)]%Z [(1, 1, 0); (1, 2, 0)]%Z
           ["1.0.0-dev.1"])) by reflexivity.
  split; [exact P|].
  exact (pruner_second_run_marks_nothing _ _ _ _ P).
Defined.

Lemma setdefault_append_values (k : ver_key) (t : string)
    (d : list (ver_key * list string)) :
  Permutation (dict_values (setdefault_append k t d)) (t :: dict_values d).
Proof.
  unfold dict_values. induction d as [|[k' l] d IH]; cbn [setdefault_append].
  - apply Permutation_refl.
  - destruct (key_eqb k k'); cbn [map snd List.concat].
    + rewrite <- app_assoc. cbn [app]. symmetry. apply Permutation_middle.
    + apply (Permutation_app_head l) in IH.
      eapply Permutation_trans; [exact IH|]. symmetry. apply Permutation_middle.
Qed.

Lemma tags_to_delete_of_values (l2 : list ver_key)
    (d : list (ver_key * list string)) (t : string) :
  In t (tags_to_delete_of l2 d) -> In t (dict_values d).
Proof.
  unfold dict_values. induction d as [|[k l] d IH]; cbn [tags_to_delete_of map snd List.concat].
  - trivial.
  - destruct (key_in k l2); intros H; apply in_or_app.
    + right. now apply IH.
    + apply in_app_or in H as [H|H]; [now left | right; now apply IH].
Qed.

Lemma NoDup_app_apart {A} (l l' : list A) (x : A) :
  NoDup (l ++ l') -> In x l -> ~ In x l'.
Proof.
  induction l as [|a l IH]; [intros _ []|].
  cbn [app]. intros H [<-|Hx] Hx'.
  - apply NoDup_cons_iff in H as [H _]. apply H, in_or_app. now right.
  - apply NoDup_cons_iff in H as [_ H]. exact (IH H Hx Hx').
Qed.

Lemma tags_to_delete_of_NoDup (l2 : list ver_key)
    (d : list (ver_key * list string)) :
  NoDup (dict_values d) -> NoDup (tags_to_delete_of l2 d).
Proof.
  unfold dict_values. induction d as [|[k l] d IH]; cbn [tags_to_delete_of map snd List.concat].
  - trivial.
  - intros H. pose proof (NoDup_app_remove_l _ _ H) as Hd.
    destruct (key_in k l2); [now apply IH|].
    apply NoDup_app; [exact (NoDup_app_remove_r _ _ H) | now apply IH |].
    intros x Hx Hx'. apply tags_to_delete_of_values in Hx'.
    exact (NoDup_app_apart _ _ x H Hx Hx').
Qed.

Lemma categorise_NoDup (tags : list string) :
  forall b b',
    NoDup tags ->
    NoDup (dict_values (dev_tags_by_version b)) ->
    (forall t, In t tags -> ~ In t (dict_values (dev_tags_by_version b))) ->
    categorise tags b = Val b' ->
    NoDup (dict_values (dev_tags_by_version b')).
Proof.
  induction tags as [|tag rest IH]; intros b b' Ht Hb Hn; cbn [categorise].
  - now intros [= <-].
  - apply NoDup_cons_iff in Ht as [Htag Hrest].
    destruct (parse_tag tag) as [[[[[major minor] patch] [n|]]|]|e];
      cbn [py_bind]; try discriminate.
    + apply IH; cbn [dev_tags_by_version]; [exact Hrest | |].
      * eapply Permutation_NoDup;
          [symmetry; apply setdefault_append_values|].
        apply NoDup_cons; [apply Hn; now left | exact Hb].
      * intros t Ht H.
        apply (Permutation_in _ (setdefault_append_values _ _ _)) in H.
        destruct H as [<-|H]; [contradiction|].
        apply (Hn t); [now right | exact H].
    + apply IH; cbn [dev_tags_by_version]; [exact Hrest | exact Hb |].
      intros t Ht. apply Hn. now right.
    + apply IH; [exact Hrest | exact Hb |].
      intros t Ht. apply Hn. now right.
Qed.

(** The commands of tags without repeats are without repeats. *)
Lemma deletions_of_In (del : list string) (c : list string) :
  In c (deletions_of del)
  <-> exists t, In t del
                /\ (c = ["tag"; "-d"; t] \/ c = ["push"; "--delete"; "origin"; t]).
Proof.
  unfold deletions_of. rewrite in_flat_map. split.
  - intros (t & Ht & [<-|[<-|[]]]); exists t; auto.
  - intros (t & Ht & [->| ->]); exists t; (split; [exact Ht|]); cbn; auto.
Qed.

Lemma deletions_of_NoDup (del : list string) :
  NoDup del -> NoDup (deletions_of del).
Proof.
  induction 1 as [|x del Hx _ IH]; [apply NoDup_nil|].
  change (deletions_of (x :: del))
    with (["tag"; "-d"; x] :: ["push"; "--delete"; "origin"; x]
          :: deletions_of del).
  apply NoDup_cons; [|apply NoDup_cons; [|exact IH]].
  - intros [E|H]; [discriminate E|].
    apply deletions_of_In in H as (t & Ht & [[= ->]|E]);
      [contradiction | discriminate E].
  - intros H.
    apply deletions_of_In in H as (t & Ht & [E|[= ->]]);
      [discriminate E | contradiction].
Qed.

(** X15: when the listing names no tag twice, no tag is marked twice, and
    no deletion command is among the commands of step 5 twice. *)
Theorem pruner_marks_no_tag_twice
    (tags : list string) (so l2 : list ver_key) (del : list string) :
  NoDup tags ->
  plan_of tags = Val (Delete so l2 del) ->
  NoDup del /\ NoDup (deletions_of del).
Proof.
  intros N. unfold plan_of. destruct tags as [|t0 tags]; [discriminate|].
  destruct (categorise (t0 :: tags) (mk_buckets [] [])) as [b|e] eqn:C;
    cbn [py_bind]; [|discriminate].
  assert (D : forall latest_two,
            NoDup (tags_to_delete_of latest_two (dev_tags_by_version b))).
  { intros latest_two. apply tags_to_delete_of_NoDup.
    apply (categorise_NoDup (t0 :: tags) (mk_buckets [] []) b N);
      [apply NoDup_nil | intros ? _ [] | exact C]. }
  destruct (official_versions b); [discriminate|].
  intros [= _ _ <-].
  split; [apply D | apply deletions_of_NoDup, D].
Qed.

Lemma pruner_marks_no_tag_twice_example :
  NoDup (local_tags diverged_repo)
  /\ plan_of (local_tags diverged_repo)
     = Val (Delete [(1, 0, 0); (1, 1, 0); (1, 2, 0)]%Z [(1, 1, 0); (1, 2, 0)]%Z
              ["1.0.0-dev.1"; "0.9.0-dev.3"])
  /\ NoDup ["1.0.0-dev.1"; "0.9.0-dev.3"]
  /\ NoDup (deletions_of ["1.0.0-dev.1"; "0.9.0-dev.3"]).
Proof.
  assert (N : NoDup (local_tags diverged_repo)).
  { repeat (apply NoDup_cons; [cbn; intuition discriminate|]). apply NoDup_nil. }
  assert (P : plan_of (local_tags diverged_repo)
     = Val (Delete [(1, 0, 0); (1, 1, 0); (1, 2, 0)]%Z [(1, 1, 0); (1, 2, 0)]%Z
              ["1.0.0-dev.1"; "0.9.0-dev.3"])) by reflexivity.
  split; [exact N|]. split; [exact P|].
  exact (pruner_marks_no_tag_twice _ _ _ _ N P).
Defined.

(** ** The pruner: what a run prints *)

Lemma insert_by_perm {A} (lt : A -> A -> bool) (x : A) (l : list A) :
  Permutation (insert_by lt x l) (x :: l).
Proof.
  induction l as [|y l IH]; cbn [insert_by]; [apply Permutation_refl|].
  destruct (lt x y); [apply Permutation_refl|].
  eapply Permutation_trans; [apply perm_skip, IH | apply perm_swap].
Qed.

Lemma sorted_by_perm {A} (lt : A -> A -> bool) (l : list A) :
  Permutation (sorted_by lt l) l.
Proof.
  unfold sorted_by.
  assert (H : forall acc, Permutation (fold_left (fun acc x => insert_by lt x acc) l acc)
                            (acc ++ l)%list).
  { induction l as [|x l IH]; intros acc; cbn [fold_left].
    - rewrite List.app_nil_r. apply Permutation_refl.
    - eapply Permutation_trans; [apply IH|].
      eapply Permutation_trans;
        [apply Permutation_app_tail, insert_by_perm|].
      cbn [app]. apply Permutation_middle. }
  exact (H []).
Qed.

Lemma printed_app (t1 t2 : list event) :
  printed (t1 ++ t2) = (printed t1 ++ printed t2)%list.
Proof. unfold printed. apply flat_map_app. Qed.

Section Preview.

Variable World : Type.
Variable git : World -> list string -> World * completed.

(** One round of the loop of step 5. *)

Lemma delete_tags_cons (x : string) (del : list string) (w : World) :
  delete_tags World git (x :: del) w
  = let (w1, r1) := git w ["tag"; "-d"; x] in
    if (returncode r1 =? 0)%Z then
      let (w2, r2) := git w1 ["push"; "--delete"; "origin"; x] in
      if (returncode r2 =? 0)%Z then
        let '(t, w3, st) := delete_tags World git del w2 in
        ((EPrint ("Deleting tag: " ++ x) :: EGit ["tag"; "-d"; x] r1
          :: EGit ["push"; "--delete"; "origin"; x] r2 :: t)%list, w3, st)
      else
        ([EPrint ("Deleting tag: " ++ x); EGit ["tag"; "-d"; x] r1;
          EGit ["push"; "--delete"; "origin"; x] r2;
          EPrintErr ("git " ++ join " " ["push"; "--delete"; "origin"; x]
                     ++ " failed:" ++ nl ++ stderr r2)],
         w2, Exit (returncode r2))
    else
      ([EPrint ("Deleting tag: " ++ x); EGit ["tag"; "-d"; x] r1;
        EPrintErr ("git " ++ join " " ["tag"; "-d"; x] ++ " failed:" ++ nl
                   ++ stderr r1)],
       w1, Exit (returncode r1)).
Proof.
  unfold delete_tags.
  set (body := fun t : string =>
                 bind (print ("Deleting tag: " ++ t))
                   (fun _ : unit =>
                      bind (run_git World git ["tag"; "-d"; t])
                        (fun _ : string =>
                           bind (run_git World git ["push"; "--delete"; "origin"; t])
                             (fun _ : string => ret tt)))).
  change (for_each (x :: del) body)
    with (bind (body x) (fun _ : unit => for_each del body)).
  unfold bind at 1. unfold body at 1. rewrite bind_print.
  unfold bind at 1.
  destruct (git w ["tag"; "-d"; x]) as [w1 r1] eqn:E1.
  rewrite (run_git_run World git _ _ _ _ E1).
  destruct (returncode r1 =? 0)%Z; [|reflexivity].
  unfold bind at 1.
  destruct (git w1 ["push"; "--delete"; "origin"; x]) as [w2 r2] eqn:E2.
  rewrite (run_git_run World git _ _ _ _ E2).
  destruct (returncode r2 =? 0)%Z; [|reflexivity].
  unfold ret at 1. destruct (for_each del body w2) as [[t w3] st].
  reflexivity.
Qed.

(** The loop of step 5 announces each tag before it deletes it. *)

Lemma delete_tags_prints (del : list string) (w : World) :
  exists n,
    (n <= List.length del)%nat
    /\ printed (fst (fst (delete_tags World git del w)))
       = map (fun t => "Deleting tag: " ++ t) (firstn n del)
    /\ (snd (delete_tags World git del w) = Ret tt -> n = List.length del).
Proof.
  revert w. induction del as [|x del IH]; intros w.
  - exists 0%nat. repeat split. apply Nat.le_refl.
  - rewrite delete_tags_cons.
    destruct (git w ["tag"; "-d"; x]) as [w1 r1].
    destruct (returncode r1 =? 0)%Z.
    + destruct (git w1 ["push"; "--delete"; "origin"; x]) as [w2 r2].
      destruct (returncode r2 =? 0)%Z.
      * destruct (IH w2) as (n & Hn & Hp & Hr).
        destruct (delete_tags World git del w2) as [[t w3] st].
        cbn [fst snd] in *. exists (S n). split; [now apply le_n_S|]. split.
        -- cbn [firstn map]. unfold printed in *. cbn [flat_map app].
           f_equal. exact Hp.
        -- intros H. cbn [List.length]. f_equal. exact (Hr H).
      * exists 1%nat. split; [cbn; apply le_n_S, Nat.le_0_l|].
        split; [reflexivity | discriminate].
    + exists 1%nat. split; [cbn; apply le_n_S, Nat.le_0_l|].
      split; [reflexivity | discriminate].
Qed.

(** X16: the dry run is a preview of the real run.  With tags marked,
    both runs produce the same events up to and including the list of the
    tags to delete, which is a rearrangement of the marked tags; the dry
    run then prints its closing line and stops, the real run announces each
    tag it handles, in the order of deletion, and prints "Done." only when
    it ends normally, having announced every marked tag. *)
Theorem pruner_dry_run_previews_the_real_run
    (w w1 : World) (r : completed)
    (so l2 : list ver_key) (t0 : string) (del : list string) :
  git w ["tag"; "--list"] = (w1, r) ->
  returncode r = 0%Z ->
  plan_of (tags_of (strip (stdout r))) = Val (Delete so l2 (t0 :: del)) ->
  exists listed preview rest w2 st n,
    Permutation listed (t0 :: del)
    /\ preview
       = (EGit ["tag"; "--list"] r :: report_of so l2
          ++ EPrint (nl ++ "Dev tags to delete:")
          :: map (fun t => EPrint ("  " ++ t)%string) listed)%list
    /\ main World git true w
       = ((preview
           ++ [EPrint (nl ++ "Dry-run mode: no tags have been deleted.")])%list,
          w1, Ret tt)
    /\ main World git false w = ((preview ++ rest)%list, w2, st)
    /\ printed rest
       = (map (fun t => ("Deleting tag: " ++ t)%string) (firstn n (t0 :: del))
          ++ match st with
             | Ret _ => [(nl ++ "Done. Deleted dev tags outside the two latest official releases (local and origin).")%string]
             | _ => []
             end)%list
    /\ (n <= List.length (t0 :: del))%nat
    /\ (st = Ret tt -> n = List.length (t0 :: del)).
Proof.
  intros G E P.
  rewrite (main_run World git true w w1 r G), (main_run World git false w w1 r G).
  rewrite E, P. change (negb (0 =? 0)%Z) with false. cbv beta iota zeta.
  destruct (delete_tags_prints (t0 :: del) w1) as (n & Hn & Hp & Hr).
  destruct (delete_tags World git (t0 :: del) w1) as [[t w2] st].
  cbn [fst snd] in *.
  exists (sorted_by String.ltb (t0 :: del)), 
    (EGit ["tag"; "--list"] r :: report_of so l2
     ++ deletion_report_of (t0 :: del))%list.
  assert (A : forall tl : list event,
            ((EGit ["tag"; "--list"] r :: report_of so l2)
             ++ deletion_report_of (t0 :: del) ++ tl
             = (EGit ["tag"; "--list"] r :: report_of so l2
                ++ deletion_report_of (t0 :: del)) ++ tl)%list).
  { intros tl. cbn [app]. now rewrite <- app_assoc. }
  destruct st as [[]|c|e].
  - exists (t ++ [EPrint (nl ++ "Done. Deleted dev tags outside the two latest official releases (local and origin).")])%list, w2, (Ret tt), n.
    split; [apply sorted_by_perm|]. split; [reflexivity|].
    split; [now rewrite A|]. split; [now rewrite A|].
    split; [now rewrite printed_app, Hp|]. now split.
  - exists t, w2, (Exit c), n.
    split; [apply sorted_by_perm|]. split; [reflexivity|].
    split; [now rewrite A|]. split; [now rewrite A|].
    split; [now rewrite Hp, List.app_nil_r|]. now split.
  - exists t, w2, (Raise e), n.
    split; [apply sorted_by_perm|]. split; [reflexivity|].
    split; [now rewrite A|]. split; [now rewrite A|].
    split; [now rewrite Hp, List.app_nil_r|]. now split.
Qed.

End Preview.

Lemma pruner_dry_run_preview_example :
  (fake_git example_repo ["tag"; "--list"]
   = (example_repo, mk_completed 0 (listing (local_tags example_repo)) EmptyString)
   /\ plan_of (tags_of (strip (listing (local_tags example_repo))))
      = Val (Delete [(1, 0, 0); (1, 1, 0); (1, 2, 0)]%Z [(1, 1, 0); (1, 2, 0)]%Z
               ["1.0.0-dev.1"]))
  /\ exists listed preview rest w2 st n,
       Permutation listed ["1.0.0-dev.1"]
       /\ preview
          = (EGit ["tag"; "--list"]
               (mk_completed 0 (listing (local_tags example_repo)) EmptyString)
             :: report_of [(1, 0, 0); (1, 1, 0); (1, 2, 0)]%Z [(1, 1, 0); (1, 2, 0)]%Z
             ++ EPrint (nl ++ "Dev tags to delete:")
             :: map (fun t => EPrint ("  " ++ t)%string) listed)%list
       /\ main repo fake_git true example_repo
          = ((preview
              ++ [EPrint (nl ++ "Dry-run mode: no tags have been deleted.")])%list,
             example_repo, Ret tt)
       /\ main repo fake_git false example_repo = ((preview ++ rest)%list, w2, st)
       /\ printed rest
          = (map (fun t => ("Deleting tag: " ++ t)%string) (firstn n ["1.0.0-dev.1"])
             ++ match st with
                | Ret _ => [(nl ++ "Done. Deleted dev tags outside the two latest official releases (local and origin).")%string]
                | _ => []
                end)%list
       /\ (n <= List.length ["1.0.0-dev.1"])%nat
       /\ (st = Ret tt -> n = List.length ["1.0.0-dev.1"]).
Proof.
  assert (P : plan_of (tags_of (strip (listing (local_tags example_repo))))
      = Val (Delete [(1, 0, 0); (1, 1, 0); (1, 2, 0)]%Z [(1, 1, 0); (1, 2, 0)]%Z
               ["1.0.0-dev.1"])) by (vm_compute; reflexivity).
  split; [split; [reflexivity | exact P]|].
  exact (pruner_dry_run_previews_the_real_run repo fake_git example_repo example_repo
           (mk_completed 0 (listing (local_tags example_repo)) EmptyString)
           _ _ _ _ eq_refl eq_refl P).
Defined.
